(** * Linear MCP server: pagination helpers and resource registrations

    A shallow embedding of
    - the pagination utilities ([fetchAllPages] and the [Paginator] class),
    - the cycle resources of [registerCycleResources] together with the
      [listTeams] / [listCycles] methods of the [LinearClient] wrapper,
    - the URI templates registered by [createServer].

    Asynchronous functions are written in a state-and-exception monad: the
    state holds the receiver object, the state of the backend and the log of
    the requests made so far; a rejected promise is an exception.  Loops that
    may run forever take a fuel argument that bounds the number of times the
    loop body is run; when the loop condition holds and no fuel is left they
    yield [None] and the state reached so far. *)

From Stdlib Require Import ZArith String Ascii Lia.
From stdpp Require Import base option list.

Open Scope string_scope.
Open Scope Z_scope.
Open Scope list_scope.

(** ** JavaScript truthiness of the values that the code tests *)

(** [!s] is true of the empty string only. *)
Definition truthy_string (s : string) : bool :=
  match s with
  | EmptyString => false
  | String _ _ => true
  end.

(** [!x] for [x : string | null | undefined]. *)
Definition truthy_opt_string (x : option string) : bool :=
  match x with
  | None => false
  | Some s => truthy_string s
  end.

(** [n || d] for a number that may be undefined; numbers are integers here
    (the page sizes of the callers), so the only falsy number is [0]. *)
Definition number_or (n : option Z) (d : Z) : Z :=
  match n with
  | None => d
  | Some k => if k =? 0 then d else k
  end.

(** A default parameter or a destructuring default: it applies to
    [undefined] only. *)
Definition default_to {A : Type} (d : A) (x : option A) : A :=
  match x with
  | None => d
  | Some a => a
  end.

(** ** Pagination utilities *)

Module Pagination.

Record PageInfo : Type := mkPageInfo {
  hasNextPage : bool;
  endCursor : option string
}.

Record PaginatedResult (T : Type) : Type := mkPaginatedResult {
  nodes : list T;
  pageInfo : option PageInfo
}.
Arguments mkPaginatedResult {T} _ _.
Arguments nodes {T} _.
Arguments pageInfo {T} _.

Record PaginationOptions : Type := mkPaginationOptions {
  first : option Z;
  after : option string
}.

(** The private fields of a [Paginator] other than [fetchPage], which is
    fixed at construction and is a parameter of the section below. *)
Record Paginator : Type := mkPaginator {
  this_first : Z;
  currentCursor : option string;
  hasMore : bool
}.

Definition set_hasMore (b : bool) (p : Paginator) : Paginator :=
  {| this_first := this_first p; currentCursor := currentCursor p; hasMore := b |}.

Definition set_currentCursor (c : option string) (p : Paginator) : Paginator :=
  {| this_first := this_first p; currentCursor := c; hasMore := hasMore p |}.

Section Paginator.

Context {T E W : Type}.

(** A settled call of the page fetcher: the promise is fulfilled with a page
    or rejected with an error. *)
Definition Settled : Type := (E + PaginatedResult T)%type.

(** [PageFetcher<T>]: the backend may keep state of its own. *)
Definition PageFetcher : Type := PaginationOptions -> W -> Settled * W.

Record Machine : Type := mkMachine {
  this : Paginator;
  backend : W;
  requests : list (PaginationOptions * Settled)
}.

Definition M (A : Type) : Type := Machine -> (E + A) * Machine.

Definition ret {A : Type} (a : A) : M A := fun m => (inr a, m).

Definition bind {A B : Type} (c : M A) (k : A -> M B) : M B :=
  fun m =>
    match c m with
    | (inl e, m') => (inl e, m')
    | (inr a, m') => k a m'
    end.

Definition get_this : M Paginator := fun m => (inr (this m), m).

Definition modify_this (f : Paginator -> Paginator) : M unit :=
  fun m => (inr tt, {| this := f (this m); backend := backend m; requests := requests m |}).

Definition when (b : bool) (c : M unit) : M unit := if b then c else ret tt.

Variable fetchPage : PageFetcher.

(** [await fetchPage(options)]: the call is appended to the log together
    with the way in which it settled. *)
Definition await_fetchPage (options : PaginationOptions) : M (PaginatedResult T) :=
  fun m =>
    let '(r, w) := fetchPage options (backend m) in
    (r, {| this := this m; backend := w; requests := requests m ++ [(options, r)] |}).

(** [!result.pageInfo || !result.pageInfo.hasNextPage || !result.pageInfo.endCursor] *)
Definition no_next_page (result : PaginatedResult T) : bool :=
  match pageInfo result with
  | None => true
  | Some info => negb (hasNextPage info) || negb (truthy_opt_string (endCursor info))
  end.

(** [result.pageInfo.endCursor], read where [result.pageInfo] is known to be
    present. *)
Definition result_endCursor (result : PaginatedResult T) : option string :=
  match pageInfo result with
  | None => None
  | Some info => endCursor info
  end.

(** [result.nodes.length < first] *)
Definition short_page (result : PaginatedResult T) (n : Z) : bool :=
  Z.of_nat (length (nodes result)) <? n.

Definition new_Paginator (first : option Z) : Paginator :=
  {| this_first := default_to 50 first; currentCursor := None; hasMore := true |}.

Definition nextPage : M (PaginatedResult T) :=
  bind get_this (fun p =>
  if negb (hasMore p) then ret {| nodes := []; pageInfo := None |}
  else
    bind (await_fetchPage {| first := Some (this_first p); after := currentCursor p |})
      (fun result =>
    bind (if no_next_page result
          then modify_this (set_hasMore false)
          else modify_this (set_currentCursor (result_endCursor result)))
      (fun _ =>
    bind (when (short_page result (this_first p)) (modify_this (set_hasMore false)))
      (fun _ =>
    ret result)))).

(** The method [hasNextPage] of the class. *)
Definition Paginator_hasNextPage : M bool :=
  bind get_this (fun p => ret (hasMore p)).

Definition reset : M unit :=
  bind (modify_this (set_currentCursor None)) (fun _ =>
  modify_this (set_hasMore true)).

(** The loop of [fetchAll]; [allNodes] is the local variable. *)
Fixpoint fetchAll_loop (fuel : nat) (allNodes : list T) (m : Machine)
  : option (E + list T) * Machine :=
  if hasMore (this m) then
    match fuel with
    | O => (None, m)
    | S fuel' =>
        match nextPage m with
        | (inl e, m') => (Some (inl e), m')
        | (inr result, m') => fetchAll_loop fuel' (allNodes ++ nodes result) m'
        end
    end
  else (Some (inr allNodes), m).

Definition fetchAll (fuel : nat) (m : Machine) : option (E + list T) * Machine :=
  fetchAll_loop fuel [] m.

(** The local variables of [fetchAllPages] that the loop assigns. *)
Record Locals : Type := mkLocals {
  allNodes : list T;
  loc_hasNextPage : bool;
  loc_after : option string
}.

(** The body of the loop of [fetchAllPages] after the page has arrived. *)
Definition fetchAllPages_body (first : Z) (l : Locals) (result : PaginatedResult T) : Locals :=
  let l1 := {| allNodes := allNodes l ++ nodes result;
               loc_hasNextPage := loc_hasNextPage l;
               loc_after := loc_after l |} in
  let l2 := if no_next_page result
            then {| allNodes := allNodes l1; loc_hasNextPage := false; loc_after := loc_after l1 |}
            else {| allNodes := allNodes l1; loc_hasNextPage := loc_hasNextPage l1;
                    loc_after := result_endCursor result |} in
  if short_page result first
  then {| allNodes := allNodes l2; loc_hasNextPage := false; loc_after := loc_after l2 |}
  else l2.

Fixpoint fetchAllPages_loop (fuel : nat) (first : Z) (l : Locals) (m : Machine)
  : option (E + list T) * Machine :=
  if loc_hasNextPage l then
    match fuel with
    | O => (None, m)
    | S fuel' =>
        match await_fetchPage {| first := Some first; after := loc_after l |} m with
        | (inl e, m') => (Some (inl e), m')
        | (inr result, m') => fetchAllPages_loop fuel' first (fetchAllPages_body first l result) m'
        end
    end
  else (Some (inr (allNodes l)), m).

Definition fetchAllPages (fuel : nat) (options : option PaginationOptions) (m : Machine)
  : option (E + list T) * Machine :=
  let options := default_to {| first := Some 50; after := None |} options in
  fetchAllPages_loop fuel (number_or (first options) 50)
    {| allNodes := []; loc_hasNextPage := true; loc_after := after options |} m.

(** *** Notions used to state the properties of the loops *)

(** The state in which [nextPage] leaves the receiver once the page
    [result] has arrived. *)
Definition advance (p : Paginator) (result : PaginatedResult T) : Paginator :=
  let p1 := if no_next_page result
            then set_hasMore false p
            else set_currentCursor (result_endCursor result) p in
  if short_page result (this_first p) then set_hasMore false p1 else p1.

(** A page that ends the traversal when it was requested with page size [n]. *)
Definition stops (n : Z) (result : PaginatedResult T) : bool :=
  no_next_page result || short_page result n.

(** The pages [pages] were fetched in this order, the last one is the first
    one that ends the traversal. *)
Definition ends_at_first_stop (n : Z) (pages : list (PaginatedResult T)) : Prop :=
  exists before last,
    pages = before ++ [last] /\
    Forall (fun r => stops n r = false) before /\
    stops n last = true.

(** The calls of the page fetcher made between [m] and [m'] settled, in this
    order, as [outcomes]; each asked for [n] items. *)
Definition fetched (n : Z) (m m' : Machine) (outcomes : list Settled) : Prop :=
  exists entries,
    requests m' = requests m ++ entries /\
    snd <$> entries = outcomes /\
    Forall (fun e => first (fst e) = Some n) entries.

(** What a run of [fetchAll] or [fetchAllPages] that started in [m] with
    the loop condition true and page size [n] has done when it yields [r]:
    - it returned [all]: the calls of the backend made are those of [pages],
      the last page is the first that ends the traversal, and [all] is the
      concatenation of the pages in fetch order;
    - it was rejected with [e]: the last call of the backend is the one that
      was rejected with [e], the pages before it do not end the traversal;
    - it ran out of fuel: [fuel] pages were fetched and none of them ends the
      traversal. *)
Definition explains (n : Z) (fuel : nat) (m : Machine)
    (r : option (E + list T) * Machine) : Prop :=
  match r with
  | (Some (inr all), m') =>
      exists pages,
        fetched n m m' (inr <$> pages) /\
        ends_at_first_stop n pages /\
        all = concat (nodes <$> pages)
  | (Some (inl e), m') =>
      exists pages,
        fetched n m m' ((inr <$> pages) ++ [inl e]) /\
        Forall (fun r => stops n r = false) pages
  | (None, m') =>
      exists pages,
        fetched n m m' (inr <$> pages) /\
        Forall (fun r => stops n r = false) pages /\
        length pages = fuel
  end.

(** The part of a run that does not depend on the receiver: what the caller
    gets ([None] when the fuel ran out, else the value or the rejection), the
    state of the backend and the log of requests. *)
Definition observable {A : Type} (r : option (E + A) * Machine)
  : option (E + A) * W * list (PaginationOptions * Settled) :=
  (fst r, backend (snd r), requests (snd r)).

(** A backend whose answer depends on the options of the call only. *)
Definition deterministic : Prop :=
  forall options w1 w2, fst (fetchPage options w1) = fst (fetchPage options w2).

(** The calls that a client makes on a [Paginator]. *)
Inductive Call : Type :=
  | call_nextPage
  | call_hasNextPage
  | call_reset
  | call_fetchAll.

(** A client that makes the calls [calls] in order and goes on after a
    rejection; [None] when a [fetchAll] does not return within [fuel]. *)
Fixpoint run_calls (fuel : nat) (calls : list Call) (m : Machine) : option Machine :=
  match calls with
  | [] => Some m
  | c :: calls' =>
      match c with
      | call_nextPage => run_calls fuel calls' (snd (nextPage m))
      | call_hasNextPage => run_calls fuel calls' (snd (Paginator_hasNextPage m))
      | call_reset => run_calls fuel calls' (snd (reset m))
      | call_fetchAll =>
          match fetchAll fuel m with
          | (None, _) => None
          | (Some _, m') => run_calls fuel calls' m'
          end
      end
  end.

(** [nextPage] called [k] times in a row, with what the calls returned. *)
Fixpoint nextPage_times (k : nat) (m : Machine) : list (E + PaginatedResult T) * Machine :=
  match k with
  | O => ([], m)
  | S k' =>
      let '(r, m1) := nextPage m in
      let '(rs, m2) := nextPage_times k' m1 in
      (r :: rs, m2)
  end.

(** The requests [entries], made in this order, follow the cursor protocol
    from the cursor [c]: each asks for the page after the [endCursor] of the
    page before it, the first for the page after [c], and nothing is asked
    after a rejected request. *)
Fixpoint chained (c : option string) (entries : list (PaginationOptions * Settled)) : Prop :=
  match entries with
  | [] => True
  | (options, r) :: entries' =>
      after options = c /\
      match r with
      | inl _ => entries' = []
      | inr result => chained (result_endCursor result) entries'
      end
  end.

(** The items [xs] put in front of the items that a run returns. *)
Definition prepend (xs : list T) (r : option (E + list T)) : option (E + list T) :=
  match r with
  | Some (inr all) => Some (inr (xs ++ all))
  | Some (inl e) => Some (inl e)
  | None => None
  end.

(** The [after] of the request for the page that starts at offset [k],
    when [cursor_at] gives the cursor that the backend reports at an
    offset: no cursor at the start. *)
Definition after_offset (cursor_at : nat -> string) (k : nat) : option string :=
  match k with
  | O => None
  | S _ => Some (cursor_at k)
  end.

(** A backend that serves the collection [all] in pages of [n] items: asked
    for the page at an offset [k], it returns the next [n] items (fewer at
    the end), tells whether items are left after them, and if so reports
    the (non-empty) cursor of the offset after them. *)
Definition serves (all : list T) (n : nat) (cursor_at : nat -> string) : Prop :=
  forall (k : nat) (w : W),
    (k <= length all)%nat ->
    exists (c : option string) (w' : W),
      fetchPage {| first := Some (Z.of_nat n); after := after_offset cursor_at k |} w =
        (inr {| nodes := take n (drop k all);
                pageInfo := Some {| hasNextPage := (k + n <? length all)%nat;
                                    endCursor := c |} |}, w') /\
      ((k + n < length all)%nat ->
       c = Some (cursor_at (k + n)%nat) /\ cursor_at (k + n)%nat <> "").

End Paginator.

Arguments Machine : clear implicits.
Arguments PageFetcher : clear implicits.
Arguments Settled : clear implicits.

(** *** Backends used as examples *)

(** A machine with a freshly constructed [Paginator] and an empty log. *)
Definition fresh {T E W : Type} (first : option Z) (w : W) : Machine T E W :=
  {| this := new_Paginator first; backend := w; requests := [] |}.

Definition items (from count : nat) : list nat := seq from count.

(** Page 1 has 50 items, [hasNextPage: true] and [endCursor: "c1"]; the page
    after ["c1"] has 12 items, [hasNextPage: true] and [endCursor: "c2"]. *)
Definition scenarioB_page1 : PaginatedResult nat :=
  {| nodes := items 0 50;
     pageInfo := Some {| hasNextPage := true; endCursor := Some "c1" |} |}.

Definition scenarioB_page2 : PaginatedResult nat :=
  {| nodes := items 50 12;
     pageInfo := Some {| hasNextPage := true; endCursor := Some "c2" |} |}.

Definition scenarioB_backend : PageFetcher nat string unit :=
  fun options w =>
    match after options with
    | None => (inr scenarioB_page1, w)
    | Some c => if String.eqb c "c1" then (inr scenarioB_page2, w)
                else (inl "unknown cursor", w)
    end.

(** A full page whose metadata reports a next page and gives the empty
    string as cursor. *)
Definition empty_cursor_page : PaginatedResult nat :=
  {| nodes := [7%nat];
     pageInfo := Some {| hasNextPage := true; endCursor := Some "" |} |}.

Definition empty_cursor_backend : PageFetcher nat string unit :=
  fun _ w => (inr empty_cursor_page, w).

(** A backend that always returns a full page (of the one item asked for)
    and always reports a next page. *)
Definition endless_page : PaginatedResult nat :=
  {| nodes := [7%nat];
     pageInfo := Some {| hasNextPage := true; endCursor := Some "c" |} |}.

Definition endless_backend : PageFetcher nat string unit :=
  fun _ w => (inr endless_page, w).

(** A backend that counts its calls and fails at the second one. *)
Definition flaky_backend : PageFetcher nat string nat :=
  fun _ w =>
    match w with
    | O => (inr endless_page, S w)
    | S O => (inl "timeout", S w)
    | S (S _) => (inr {| nodes := []; pageInfo := None |}, S w)
    end.

(** A backend that serves [all] in pages; the cursor of an offset is the
    string of the one character with this code. *)
Definition offset_cursor (k : nat) : string := String (ascii_of_nat k) "".

Definition slice_backend (all : list nat) : PageFetcher nat string unit :=
  fun options w =>
    let k := match after options with
             | Some (String a _) => nat_of_ascii a
             | _ => O
             end in
    let n := Z.to_nat (default_to 50 (first options)) in
    (inr {| nodes := take n (drop k all);
            pageInfo := Some {| hasNextPage := (k + n <? length all)%nat;
                                endCursor := Some (offset_cursor (k + n)) |} |}, w).

End Pagination.

(** ** The cycle resources and the client methods they call *)

Module CycleResources.
Import Pagination.

Record Team : Type := mkTeam {
  team_id : string;
  team_name : string
}.

Record Cycle (Date : Type) : Type := mkCycle {
  cycle_id : string;
  cycle_name : option string;
  startsAt : Date;
  endsAt : Date
}.
Arguments mkCycle {Date} _ _ _ _.
Arguments cycle_id {Date} _.
Arguments cycle_name {Date} _.
Arguments startsAt {Date} _.
Arguments endsAt {Date} _.

(** An entry of the listing that a [list] callback returns. *)
Record Resource : Type := mkResource {
  uri : string;
  name : string;
  description : string
}.

(** An entry of the [contents] of the result of a read callback. *)
Record Content : Type := mkContent {
  content_uri : string;
  text : string
}.

(** The line feed. *)
Definition newline : string := String "010" "".

(** [lines.join(sep)] for an array of strings. *)
Definition join (sep : string) (lines : list string) : string :=
  String.concat sep lines.

(** A value that may be undefined in a template literal. *)
Definition template_value (x : option string) : string :=
  match x with
  | Some s => s
  | None => "undefined"
  end.

(** The comparisons [a < b], [a <= b], [a > b] and [a >= b] of two time
    values: false when one of them is [NaN]. *)
Definition js_lt (a b : option Z) : bool :=
  match a, b with
  | Some x, Some y => x <? y
  | _, _ => false
  end.

Definition js_le (a b : option Z) : bool :=
  match a, b with
  | Some x, Some y => x <=? y
  | _, _ => false
  end.

Definition js_gt (a b : option Z) : bool := js_lt b a.

Definition js_ge (a b : option Z) : bool := js_le b a.

(** The queries that the wrapped SDK client sends. *)
Inductive Query : Type :=
  | teams_query (first : Z) (after : option string)
  | cycles_query (first : Z) (after : option string) (team_id_eq : string).

(** [x || d] for a string that may be undefined. *)
Definition string_or (x : option string) (d : string) : string :=
  match x with
  | Some s => if truthy_string s then s else d
  | None => d
  end.

Section Client.

Context {E Date : Type}.

(** The SDK client: its answer to a query is a connection or an error. *)
Variable sdk_teams : Z -> option string -> E + PaginatedResult Team.
Variable sdk_cycles : Z -> option string -> string -> E + PaginatedResult (Cycle Date).

(** [new Date(d).toLocaleDateString()] *)
Variable toLocaleDateString : Date -> string.

(** A call of a client method sends its query at once (the log) and yields
    a promise, given here by the way in which it will settle. *)
Definition Async (A : Type) : Type := list Query -> (E + A) * list Query.

Definition listTeams (options : option PaginationOptions) : Async (PaginatedResult Team) :=
  fun log =>
    let options := default_to {| first := None; after := None |} options in
    let first := default_to 50 (first options) in
    let after := after options in
    (sdk_teams first after, log ++ [teams_query first after]).

Definition listCycles (teamId : string) (options : option PaginationOptions)
  : Async (PaginatedResult (Cycle Date)) :=
  fun log =>
    let options := default_to {| first := None; after := None |} options in
    let first := default_to 50 (first options) in
    let after := after options in
    (sdk_cycles first after teamId, log ++ [cycles_query first after teamId]).

Definition formatCycleDates (cycle : Cycle Date) : string :=
  let startDate := toLocaleDateString (startsAt cycle) in
  let endDate := toLocaleDateString (endsAt cycle) in
  (startDate ++ " to " ++ endDate)%string.

(** The object that the [list] callback builds for a cycle of a team. *)
Definition cycle_resource (team : Team) (cycle : Cycle Date) : Resource :=
  {| uri := ("linear://cycles/" ++ cycle_id cycle)%string;
     name := string_or (cycle_name cycle) ("Cycle " ++ cycle_id cycle)%string;
     description := (team_name team ++ " cycle: " ++ formatCycleDates cycle)%string |}.

(** The callback mapped over the teams. *)
Definition team_cycles (team : Team) : Async (list Resource) :=
  fun log =>
    match listCycles (team_id team) None log with
    | (inl e, log') => (inl e, log')
    | (inr cycles, log') => (inr (cycle_resource team <$> nodes cycles), log')
    end.

(** [xs.map(async x => ...)]: the callbacks are started in the order of
    [xs]; each runs up to its first [await], so the queries are sent in this
    order, and the array of promises is in this order. *)
Fixpoint map_async {A B : Type} (f : A -> Async B) (xs : list A) (log : list Query)
  : list (E + B) * list Query :=
  match xs with
  | [] => ([], log)
  | x :: xs' =>
      let '(p, log1) := f x log in
      let '(ps, log2) := map_async f xs' log1 in
      (p :: ps, log2)
  end.

(** [Promise.all(promises)] where the promises settle in the order [sched]
    (indices into [promises]): a fulfilled promise stores its value at its
    own index of the array of values, the first rejection rejects the
    whole. *)
Fixpoint settle {A : Type} (promises : list (E + A)) (sched : list nat)
    (values : list (option A)) : E + list (option A) :=
  match sched with
  | [] => inr values
  | i :: sched' =>
      match promises !! i with
      | Some (inl e) => inl e
      | Some (inr v) => settle promises sched' (<[i := Some v]> values)
      | None => settle promises sched' values
      end
  end.

(** [await Promise.all(promises)]; [None] while a promise is still
    pending. *)
Definition await_all {A : Type} (promises : list (E + A)) (sched : list nat)
  : option (E + list A) :=
  match settle promises sched (replicate (length promises) None) with
  | inl e => Some (inl e)
  | inr values =>
      match mapM id values with
      | Some vs => Some (inr vs)
      | None => None
      end
  end.

(** The [list] callback of the template [linear://cycles]; [sched] is the
    order in which the queries for the cycles of the teams are answered. *)
Definition cycles_list (sched : list nat) (log : list Query)
  : option (E + list Resource) * list Query :=
  match listTeams None log with
  | (inl e, log1) => (Some (inl e), log1)
  | (inr teams, log1) =>
      let '(cyclesPromises, log2) := map_async team_cycles (nodes teams) log1 in
      match await_all cyclesPromises sched with
      | Some (inl e) => (Some (inl e), log2)
      | Some (inr arrays) => (Some (inr (concat arrays)), log2)
      | None => (None, log2)
      end
  end.

(** The listing in parent-iteration order: the cycles of the first team of
    the team listing in page order, then those of the second team, ... *)
Definition in_team_order (teams : list Team) (cycles : Team -> list (Cycle Date))
  : list Resource :=
  concat ((fun team => cycle_resource team <$> cycles team) <$> teams).

(** *** The read callbacks of the cycle resources *)

(** The time value of [new Date(d)]; [None] is [NaN] (an invalid date). *)
Variable time_value : Date -> option Z.

(** The line that the read callbacks of [linear://cycles] and
    [linear://cycles/active] print for a cycle of a team. *)
Definition cycle_line (team : Team) (cycle : Cycle Date) : string :=
  ("- " ++ template_value (cycle_name cycle) ++ " (" ++ team_name team ++ ", " ++
   formatCycleDates cycle ++ ")")%string.

(** The callback that the read callback of [linear://cycles] maps over the
    teams. *)
Definition team_cycle_lines (team : Team) : Async (list string) :=
  fun log =>
    match listCycles (team_id team) None log with
    | (inl e, log') => (inl e, log')
    | (inr cycles, log') => (inr (cycle_line team <$> nodes cycles), log')
    end.

(** The read callback of the template [linear://cycles]; [href] is
    [uri.href]. *)
Definition cycles_read (sched : list nat) (href : string) (log : list Query)
  : option (E + list Content) * list Query :=
  match listTeams None log with
  | (inl e, log1) => (Some (inl e), log1)
  | (inr teams, log1) =>
      let '(cyclesPromises, log2) := map_async team_cycle_lines (nodes teams) log1 in
      match await_all cyclesPromises sched with
      | Some (inl e) => (Some (inl e), log2)
      | Some (inr arrays) =>
          let allCycles := concat arrays in
          (Some (inr [ {| content_uri := href; text := join newline allCycles |} ]), log2)
      | None => (None, log2)
      end
  end.

(** [startDate <= now && endDate >= now] *)
Definition is_active (now : Z) (cycle : Cycle Date) : bool :=
  let startDate := time_value (startsAt cycle) in
  let endDate := time_value (endsAt cycle) in
  js_le startDate (Some now) && js_ge endDate (Some now).

(** The callback that the read callback of [linear://cycles/active] maps
    over the teams. *)
Definition team_active_lines (now : Z) (team : Team) : Async (list string) :=
  fun log =>
    match listCycles (team_id team) None log with
    | (inl e, log') => (inl e, log')
    | (inr cycles, log') =>
        (inr (cycle_line team <$> List.filter (is_active now) (nodes cycles)), log')
    end.

(** The read callback of the template [linear://cycles/active]; [now] is
    the time value of [new Date()]. *)
Definition active_cycles_read (sched : list nat) (now : Z) (href : string) (log : list Query)
  : option (E + list Content) * list Query :=
  match listTeams None log with
  | (inl e, log1) => (Some (inl e), log1)
  | (inr teams, log1) =>
      let '(activeCyclesPromises, log2) := map_async (team_active_lines now) (nodes teams) log1 in
      match await_all activeCyclesPromises sched with
      | Some (inl e) => (Some (inl e), log2)
      | Some (inr arrays) =>
          let activeCycles := concat arrays in
          (Some (inr [ {| content_uri := href;
                          text := if (0 <? length activeCycles)%nat
                                  then join newline activeCycles
                                  else "No active cycles found." |} ]), log2)
      | None => (None, log2)
      end
  end.

(** [getCycleStatus]; [now] is the time value of its [new Date()]. *)
Definition getCycleStatus (now : Z) (cycle : Cycle Date) : string :=
  let startDate := time_value (startsAt cycle) in
  let endDate := time_value (endsAt cycle) in
  if js_lt (Some now) startDate then "Upcoming"
  else if js_gt (Some now) endDate then "Completed"
  else "Active".

(** The lines of the cycles that [keep] keeps, in parent-iteration order. *)
Definition lines_in_team_order (keep : Cycle Date -> bool) (teams : list Team)
    (cycles : Team -> list (Cycle Date)) : list string :=
  concat ((fun team => cycle_line team <$> List.filter keep (cycles team)) <$> teams).

End Client.

(** *** A backend used as an example *)

(** Team number [i] and the cycles of a team; dates are numbers. *)
Definition team_nr (i : nat) : Team :=
  {| team_id := String (ascii_of_nat (48 + i)) ""; team_name := "team" |}.

Definition cycle_nr (teamId : string) (i : nat) : Cycle nat :=
  {| cycle_id := (teamId ++ String (ascii_of_nat (48 + i)) "")%string;
     cycle_name := None; startsAt := i; endsAt := S i |}.

(** A backend with [teams] teams of [cycles] cycles each that serves the
    first [first] items and reports whether there are more. *)
Definition example_page {T : Type} (all : list T) (first : Z) : PaginatedResult T :=
  {| nodes := take (Z.to_nat first) all;
     pageInfo := Some {| hasNextPage := Z.of_nat (length all) >? first;
                         endCursor := Some "next" |} |}.

Definition example_teams (teams : nat) (first : Z) (after : option string)
  : string + PaginatedResult Team :=
  inr (example_page (team_nr <$> seq 0 teams) first).

Definition example_cycles (cycles : nat) (first : Z) (after : option string) (teamId : string)
  : string + PaginatedResult (Cycle nat) :=
  inr (example_page (cycle_nr teamId <$> seq 0 cycles) first).

Definition example_date (d : nat) : string := String (ascii_of_nat (48 + d)) "".

Definition example_time (d : nat) : option Z := Some (Z.of_nat d).

End CycleResources.

(** ** URI templates and the registrations of [createServer] *)

Module UriTemplates.

(** Modelled from the spec: the matching of a concrete URI against a URI
    template is done by the MCP SDK ([ResourceTemplate], [McpServer]), which
    is not part of the sources.  The Resolve operation of the spec is
    followed: a template and a URI are cut into segments at every [/] (the
    scheme [linear:] and the empty segment after it are literal segments);
    matching succeeds iff both have the same number of segments, every
    literal segment of the template equals the segment of the URI at the same
    position, and every variable segment [{name}] consumes exactly one
    non-empty segment, which is bound to [name] after percent-decoding; the
    first registered template that matches wins. *)
Inductive Segment : Type :=
  | literal (s : string)
  | variable (name : string).

(** Modelled from the spec: the first segment of [s] and the segments after
    it (see [Segment]). *)
Fixpoint split_on (sep : ascii) (s : string) : string * list string :=
  match s with
  | EmptyString => (EmptyString, [])
  | String c rest =>
      let '(h, t) := split_on sep rest in
      if Ascii.eqb c sep then (EmptyString, h :: t) else (String c h, t)
  end.

(** Modelled from the spec: the segments of a template or of a URI (see
    [Segment]). *)
Definition segments (s : string) : list string :=
  let '(h, t) := split_on "/" s in h :: t.

(** Modelled from the spec: [s] without its last character when that is
    [c] (see [Segment]). *)
Fixpoint strip_last (c : ascii) (s : string) : option string :=
  match s with
  | EmptyString => None
  | String a EmptyString => if Ascii.eqb a c then Some EmptyString else None
  | String a rest =>
      match strip_last c rest with
      | Some r => Some (String a r)
      | None => None
      end
  end.

(** Modelled from the spec: a segment [{name}] of a template is a variable,
    any other segment is a literal (see [Segment]). *)
Definition template_segment (s : string) : Segment :=
  match s with
  | String c rest =>
      if Ascii.eqb c "{" then
        match strip_last "}" rest with
        | Some name => variable name
        | None => literal s
        end
      else literal s
  | EmptyString => literal s
  end.

(** Modelled from the spec: the literal and variable segments of a
    template (see [Segment]). *)
Definition template_segments (template : string) : list Segment :=
  template_segment <$> segments template.

Section Matching.

(** Percent-decoding of a path segment, which the spec names and does not
    define. *)
Variable percent_decode : string -> string.

(** Modelled from the spec: the path variables when the segments of a URI
    match those of a template (see [Segment]). *)
Fixpoint match_segments (template : list Segment) (uri : list string)
  : option (list (string * string)) :=
  match template, uri with
  | [], [] => Some []
  | literal s :: template', u :: uri' =>
      if String.eqb s u then match_segments template' uri' else None
  | variable x :: template', u :: uri' =>
      if String.eqb u "" then None
      else match match_segments template' uri' with
           | Some vars => Some ((x, percent_decode u) :: vars)
           | None => None
           end
  | _, _ => None
  end.

(** Modelled from the spec: the match of a URI against a template (see
    [Segment]). *)
Definition match_template (template uri : string) : option (list (string * string)) :=
  match_segments (template_segments template) (segments uri).

(** A call [server.resource(name, new ResourceTemplate(template, { list }), ...)];
    [has_list] tells whether a [list] callback is given. *)
Record Registration : Type := mkRegistration {
  reg_name : string;
  reg_template : string;
  has_list : bool
}.

(** Modelled from the spec: whether the template of a registration
    structurally matches [uri] (see [Segment]). *)
Definition matches (uri : string) (r : Registration) : bool :=
  match match_template (reg_template r) uri with
  | Some _ => true
  | None => false
  end.

(** The registrations whose template matches [uri], in registration order. *)
Definition matching (registered : list Registration) (uri : string) : list Registration :=
  List.filter (matches uri) registered.

(** Modelled from the spec: the Resolve operation, which yields the name of
    the first registered template that matches and the path variables. *)
Fixpoint resolve (registered : list Registration) (uri : string)
  : option (string * list (string * string)) :=
  match registered with
  | [] => None
  | r :: registered' =>
      match match_template (reg_template r) uri with
      | Some vars => Some (reg_name r, vars)
      | None => resolve registered' uri
      end
  end.

End Matching.

(** Modelled from the spec: what the URIs that match two templates have in
    common, if there can be any (see [Segment]): at each position the literal
    that both require, or nothing when both have a variable there. *)
Fixpoint common (t1 t2 : list Segment) : option (list (option string)) :=
  match t1, t2 with
  | [], [] => Some []
  | literal a :: t1', literal b :: t2' =>
      if String.eqb a b then cons (Some a) <$> common t1' t2' else None
  | literal a :: t1', variable _ :: t2' =>
      if String.eqb a "" then None else cons (Some a) <$> common t1' t2'
  | variable _ :: t1', literal b :: t2' =>
      if String.eqb b "" then None else cons (Some b) <$> common t1' t2'
  | variable _ :: t1', variable _ :: t2' => cons None <$> common t1' t2'
  | _, _ => None
  end.

(** The segments [uri] have the literals of [pattern] at their positions. *)
Fixpoint fits (pattern : list (option string)) (uri : list string) : Prop :=
  match pattern, uri with
  | [], [] => True
  | Some a :: pattern', s :: uri' => s = a /\ fits pattern' uri'
  | None :: pattern', _ :: uri' => fits pattern' uri'
  | _, _ => False
  end.

(** The registrations after [r] whose template can match a URI that the
    template of [r] matches, with what such URIs have in common. *)
Definition overlaps_with (r : Registration) (registered : list Registration)
  : list (string * string * list (option string)) :=
  omap (fun r' =>
          (fun pattern => (reg_name r, reg_name r', pattern)) <$>
          common (template_segments (reg_template r)) (template_segments (reg_template r')))
       registered.

(** The pairs of registrations whose templates can match the same URI. *)
Fixpoint overlaps (registered : list Registration)
  : list (string * string * list (option string)) :=
  match registered with
  | [] => []
  | r :: registered' => overlaps_with r registered' ++ overlaps registered'
  end.

(** The string whose first segment is [h] and whose further segments are
    [t]. *)
Fixpoint join_segments (h : string) (t : list string) : string :=
  match t with
  | [] => h
  | x :: t' => (h ++ String "/" (join_segments x t'))%string
  end.

Definition registerIssueResources : list Registration :=
  [ mkRegistration "issue" "linear://issues/{id}" false;
    mkRegistration "issues" "linear://issues" true;
    mkRegistration "teamIssues" "linear://teams/{teamId}/issues" false;
    mkRegistration "stateIssues" "linear://states/{stateId}/issues" false;
    mkRegistration "userIssues" "linear://users/{userId}/issues" false ].

Definition registerTeamResources : list Registration :=
  [ mkRegistration "team" "linear://teams/{id}" false;
    mkRegistration "teams" "linear://teams" true;
    mkRegistration "teamStates" "linear://teams/{teamId}/states" false;
    mkRegistration "teamLabels" "linear://teams/{teamId}/labels" false;
    mkRegistration "teamCycles" "linear://teams/{teamId}/cycles" false ].

Definition registerProjectResources : list Registration :=
  [ mkRegistration "project" "linear://projects/{id}" false;
    mkRegistration "projects" "linear://projects" true;
    mkRegistration "teamProjects" "linear://teams/{teamId}/projects" false;
    mkRegistration "projectIssues" "linear://projects/{projectId}/issues" false ].

Definition registerUserResources : list Registration :=
  [ mkRegistration "user" "linear://users/{id}" false;
    mkRegistration "users" "linear://users" true;
    mkRegistration "teamMembers" "linear://teams/{teamId}/members" false ].

Definition registerRoadmapResources : list Registration :=
  [ mkRegistration "roadmap" "linear://roadmaps/{id}" false;
    mkRegistration "roadmaps" "linear://roadmaps" true ].

Definition registerMilestoneResources : list Registration :=
  [ mkRegistration "milestone" "linear://milestones/{id}" false;
    mkRegistration "milestones" "linear://milestones" true;
    mkRegistration "milestoneProjects" "linear://milestones/{milestoneId}/projects" false ].

Definition registerDocumentResources : list Registration :=
  [ mkRegistration "document" "linear://documents/{id}" false;
    mkRegistration "documents" "linear://documents" true;
    mkRegistration "teamDocuments" "linear://teams/{teamId}/documents" false;
    mkRegistration "projectDocuments" "linear://projects/{projectId}/documents" false ].

Definition registerIntegrationResources : list Registration :=
  [ mkRegistration "integrations" "linear://integrations" true;
    mkRegistration "integration" "linear://integrations/{id}" false;
    mkRegistration "integrationServices" "linear://integration-services" false ].

Definition registerOrganizationResources : list Registration :=
  [ mkRegistration "organization" "linear://organization" false;
    mkRegistration "subscription" "linear://organization/subscription" false;
    mkRegistration "authServices" "linear://organization/auth-services" false ].

Definition registerInitiativeResources : list Registration :=
  [ mkRegistration "initiative" "linear://initiatives/{id}" false;
    mkRegistration "initiatives" "linear://initiatives" true;
    mkRegistration "initiativeProjects" "linear://initiatives/{initiativeId}/projects" false;
    mkRegistration "projectInitiative" "linear://projects/{projectId}/initiative" false ].

Definition registerCycleResources : list Registration :=
  [ mkRegistration "cycle" "linear://cycles/{id}" false;
    mkRegistration "cycles" "linear://cycles" true;
    mkRegistration "cycleIssues" "linear://cycles/{cycleId}/issues" false;
    mkRegistration "activeCycles" "linear://cycles/active" false ].

Definition registerCommentResources : list Registration :=
  [ mkRegistration "comment" "linear://comments/{id}" false;
    mkRegistration "issueComments" "linear://issues/{issueId}/comments" false;
    mkRegistration "userComments" "linear://users/{userId}/comments" false;
    mkRegistration "recentComments" "linear://comments/recent" false ].

(** The resources that [createServer] registers, in registration order. *)
Definition createServer : list Registration :=
  registerIssueResources ++ registerTeamResources ++ registerProjectResources ++
  registerUserResources ++ registerRoadmapResources ++ registerMilestoneResources ++
  registerDocumentResources ++ registerIntegrationResources ++
  registerOrganizationResources ++ registerInitiativeResources ++
  registerCycleResources ++ registerCommentResources.

End UriTemplates.

(** ** Methods of the client wrapper that build a filter *)

Module LinearClient.
Import Pagination.










(** *** [getIssuesAssignedToUser] *)

Record AssignedOptions : Type := mkAssignedOptions {
  assigned_first : option Z;
  assigned_after : option string;
  includeArchived : option bool;
  teamId : option string
}.

(** The variables of the raw GraphQL request. *)
Record RawVariables : Type := mkRawVariables {
  var_userId : string;
  var_first : Z;
  var_after : option string;
  var_teamId : option string
}.

(** The filter object of the fallback:
    [{ assignee: { id: { eq } }, team: { id: { eq } }, state: { type: { neq } } }],
    the last two keys present or not. *)
Record AssigneeFilter : Type := mkAssigneeFilter {
  assignee_id_eq : string;
  team_id_eq : option string;
  state_type_neq : option string
}.

(** [x || undefined] for a string that may be undefined. *)
Definition truthy_or_undefined (x : option string) : option string :=
  if truthy_opt_string x then x else None.

Definition double_quote : string := String "034" "".

(** The two conditional parts of the query text. *)
Definition team_clause (teamId : option string) : string :=
  if truthy_opt_string teamId then ", team: { id: { eq: $teamId } }" else "".

Definition state_clause (includeArchived : bool) : string :=
  if negb includeArchived
  then (", state: { type: { neq: " ++ double_quote ++ "canceled" ++ double_quote ++ " } }")%string
  else "".

(** The text of the query before, between and after the conditional
    parts. *)
Definition query_head : string := "
      query IssuesAssignedToUser($userId: ID!, $first: Int, $after: String, $teamId: ID) {
        issues(
          first: $first,
          after: $after,
          filter: {
            assignee: { id: { eq: $userId } }
            ".

Definition query_middle : string := "
            ".

Definition query_tail : string := "
          }
          orderBy: createdAt
        ) {
          nodes {
            id
            identifier
            title
            description
            url
            state {
              id
              name
              type
            }
            assignee {
              id
              name
              email
            }
            team {
              id
              name
              key
            }
          }
          pageInfo {
            hasNextPage
            endCursor
          }
        }
      }
    ".

Definition query_text (teamId : option string) (includeArchived : bool) : string :=
  (query_head ++ team_clause teamId ++ query_middle ++ state_clause includeArchived ++
   query_tail)%string.

Section Assigned.

Context {E Issue : Type}.

(** The answer to a raw request: [result.data] and [result.data.issues] may
    be missing, and reading a property of a missing object throws. *)
Record RawData : Type := mkRawData {
  issues : option (PaginatedResult Issue)
}.

Record RawResult : Type := mkRawResult {
  data : option RawData
}.

(** What the [catch] clause catches: the rejection of the raw request, or the
    [TypeError] thrown while reading the answer. *)
Inductive Caught : Type :=
  | rejected (e : E)
  | type_error.

(** The requests made and the errors written with [console.error]. *)
Inductive Request : Type :=
  | raw_request (query : string) (variables : RawVariables)
  | issues_request (first : Z) (after : option string) (filter : AssigneeFilter).

Record Effects : Type := mkEffects {
  sent : list Request;
  console : list Caught
}.

Variable rawRequest : string -> RawVariables -> E + RawResult.
Variable sdk_issues : Z -> option string -> AssigneeFilter -> E + PaginatedResult Issue.

(** The filter that the [catch] clause builds. *)
Definition fallback_filter (userId : string) (teamId : option string) (includeArchived : bool)
  : AssigneeFilter :=
  let filter := {| assignee_id_eq := userId; team_id_eq := None; state_type_neq := None |} in
  let filter := if truthy_opt_string teamId
                then {| assignee_id_eq := assignee_id_eq filter; team_id_eq := teamId;
                        state_type_neq := state_type_neq filter |}
                else filter in
  if negb includeArchived
  then {| assignee_id_eq := assignee_id_eq filter; team_id_eq := team_id_eq filter;
          state_type_neq := Some "canceled" |}
  else filter.

(** The body of the [try] block once the raw request has settled. *)
Definition read_raw (settled : E + RawResult) : Caught + PaginatedResult Issue :=
  match settled with
  | inl e => inl (rejected e)
  | inr result =>
      match data result with
      | None => inl type_error
      | Some d =>
          match issues d with
          | None => inl type_error
          | Some connection =>
              inr {| nodes := nodes connection; pageInfo := pageInfo connection |}
          end
      end
  end.

Definition getIssuesAssignedToUser (userId : string) (options : option AssignedOptions)
    (effects : Effects) : (E + PaginatedResult Issue) * Effects :=
  let options := default_to {| assigned_first := None; assigned_after := None;
                               includeArchived := None; teamId := None |} options in
  let first := default_to 50 (assigned_first options) in
  let after := assigned_after options in
  let includeArchived := default_to false (includeArchived options) in
  let teamId := teamId options in
  let query := query_text teamId includeArchived in
  let variables := {| var_userId := userId; var_first := first; var_after := after;
                      var_teamId := truthy_or_undefined teamId |} in
  let effects1 := {| sent := sent effects ++ [raw_request query variables];
                     console := console effects |} in
  match read_raw (rawRequest query variables) with
  | inr connection => (inr connection, effects1)
  | inl error =>
      let filter := fallback_filter userId teamId includeArchived in
      (sdk_issues first after filter,
       {| sent := sent effects1 ++ [issues_request first after filter];
          console := console effects1 ++ [error] |})
  end.

End Assigned.

End LinearClient.

(** * Properties *)

Module PaginationFacts.
Import Pagination.

Section Facts.

Context {T E W : Type}.
Variable fetchPage : PageFetcher T E W.

Local Abbreviation Machine := (Machine T E W).

Lemma nextPage_exhausted (m : Machine) :
  hasMore (this m) = false ->
  nextPage fetchPage m = (inr {| nodes := []; pageInfo := None |}, m).
Proof.
  intros H. unfold nextPage, bind, get_this. simpl. rewrite H. reflexivity.
Qed.

Lemma nextPage_fetch (m : Machine) :
  hasMore (this m) = true ->
  nextPage fetchPage m =
    let options := {| first := Some (this_first (this m)); after := currentCursor (this m) |} in
    match fetchPage options (backend m) with
    | (inl e, w) =>
        (inl e, {| this := this m; backend := w;
                   requests := requests m ++ [(options, inl e)] |})
    | (inr result, w) =>
        (inr result, {| this := advance (this m) result; backend := w;
                        requests := requests m ++ [(options, inr result)] |})
    end.
Proof.
  intros H. unfold nextPage, bind, get_this, await_fetchPage. simpl. rewrite H. simpl.
  destruct (fetchPage _ _) as [[e | result] w]; [reflexivity |].
  unfold advance, when, modify_this, ret.
  destruct (no_next_page result), (short_page result _); reflexivity.
Qed.

Lemma advance_first (p : Paginator) (result : PaginatedResult T) :
  this_first (advance p result) = this_first p.
Proof.
  unfold advance. destruct (no_next_page result), (short_page result _); reflexivity.
Qed.

Lemma advance_hasMore (p : Paginator) (result : PaginatedResult T) :
  hasMore p = true ->
  hasMore (advance p result) = negb (stops (this_first p) result).
Proof.
  intros H. unfold advance, stops.
  destruct (no_next_page result), (short_page result _); simpl; auto.
Qed.

Lemma advance_cursor (p : Paginator) (result : PaginatedResult T) :
  no_next_page result = false ->
  currentCursor (advance p result) = result_endCursor result.
Proof.
  intros H. unfold advance. rewrite H.
  destruct (short_page result _); reflexivity.
Qed.

(** When [no_next_page] is false the cursor that is stored is a non-empty
    string. *)
Lemma no_next_page_false (result : PaginatedResult T) :
  no_next_page result = false <->
  exists c, pageInfo result = Some {| hasNextPage := true; endCursor := Some c |} /\ c <> "".
Proof.
  unfold no_next_page. split.
  - destruct (pageInfo result) as [[h [c |]] |]; try discriminate;
      destruct h; simpl; try discriminate.
    destruct c; simpl; [discriminate |]. intros _. eexists. split; [reflexivity | discriminate].
  - intros (c & -> & Hc). simpl. destruct c; [congruence | reflexivity].
Qed.

Lemma no_next_page_true (result : PaginatedResult T) :
  no_next_page result = true <->
  pageInfo result = None \/
  (exists info, pageInfo result = Some info /\
     (hasNextPage info = false \/ endCursor info = None \/ endCursor info = Some "")).
Proof.
  unfold no_next_page. split.
  - destruct (pageInfo result) as [[h [c |]] |]; [| |auto]; intros H; right;
      eexists; (split; [reflexivity |]); simpl in *.
    + destruct h; [| auto]. destruct c; [auto | discriminate].
    + auto.
  - intros [-> | (info & -> & [H | [H | H]])]; [reflexivity | | |]; rewrite H.
    + reflexivity.
    + apply orb_true_r.
    + apply orb_true_r.
Qed.

(** *** The log of requests *)

Lemma fetched_nil (n : Z) (m : Machine) : fetched n m m [].
Proof. exists []. rewrite app_nil_r. repeat split. constructor. Qed.

Lemma fetched_cons (n : Z) (m m1 m' : Machine) options (r : Settled T E) outcomes :
  requests m1 = requests m ++ [(options, r)] ->
  first options = Some n ->
  fetched n m1 m' outcomes ->
  fetched n m m' (r :: outcomes).
Proof.
  intros H1 Hn (entries & H2 & H3 & H4).
  exists ((options, r) :: entries). split; [| split].
  - rewrite H2, H1, <- app_assoc. reflexivity.
  - subst outcomes. reflexivity.
  - constructor; assumption.
Qed.

Lemma fetched_one (n : Z) (m m' : Machine) options (r : Settled T E) :
  requests m' = requests m ++ [(options, r)] ->
  first options = Some n ->
  fetched n m m' [r].
Proof.
  intros H1 Hn. apply (fetched_cons n m m' m' options); auto using fetched_nil.
Qed.

(** *** What a run of the loop of [fetchAll] has done *)

Lemma fetchAll_loop_trace (fuel : nat) : forall (acc : list T) (m : Machine),
  match fetchAll_loop fetchPage fuel acc m with
  | (Some (inr all), m') =>
      exists pages,
        fetched (this_first (this m)) m m' (inr <$> pages) /\
        all = acc ++ concat (nodes <$> pages) /\
        (if hasMore (this m)
         then ends_at_first_stop (this_first (this m)) pages
         else pages = []) /\
        hasMore (this m') = false /\
        this_first (this m') = this_first (this m)
  | (Some (inl e), m') =>
      exists pages,
        fetched (this_first (this m)) m m' ((inr <$> pages) ++ [inl e]) /\
        Forall (fun r => stops (this_first (this m)) r = false) pages /\
        hasMore (this m) = true
  | (None, m') =>
      exists pages,
        fetched (this_first (this m)) m m' (inr <$> pages) /\
        Forall (fun r => stops (this_first (this m)) r = false) pages /\
        length pages = fuel /\
        hasMore (this m) = true /\
        hasMore (this m') = true
  end.
Proof.
  induction fuel as [| fuel IH]; intros acc m; simpl;
    destruct (hasMore (this m)) eqn:Hm.
  - exists []. split; [apply fetched_nil | split; [constructor | auto]].
  - exists []. split; [apply fetched_nil |]. rewrite app_nil_r. auto.
  - rewrite (nextPage_fetch m Hm). cbv zeta.
    set (options := {| first := Some (this_first (this m)); after := currentCursor (this m) |}).
    destruct (fetchPage options (backend m)) as [[e | result] w] eqn:Hf.
    + exists []. split; [| split; [constructor | reflexivity]].
      apply (fetched_one _ _ _ options); reflexivity.
    + set (m1 := {| this := advance (this m) result; backend := w;
                    requests := requests m ++ [(options, inr result)] |}).
      specialize (IH (acc ++ nodes result) m1).
      assert (Hn : this_first (this m1) = this_first (this m))
        by apply advance_first.
      assert (Hh : hasMore (this m1) = negb (stops (this_first (this m)) result))
        by (apply advance_hasMore; exact Hm).
      rewrite Hn, Hh in IH.
      destruct (fetchAll_loop fetchPage fuel (acc ++ nodes result) m1)
        as [[[e | all] |] m'].
      * destruct IH as (pages & Hlog & Hall & Hmore).
        destruct (stops (this_first (this m)) result) eqn:Hs; [discriminate |].
        exists (result :: pages). split; [| split; [| reflexivity]].
        -- apply (fetched_cons _ m m1 m' options); [reflexivity | reflexivity | exact Hlog].
        -- constructor; assumption.
      * destruct IH as (pages & Hlog & Hall & Hend & Hdone & Hfirst).
        exists (result :: pages). split; [| split; [| split; [| split]]].
        -- apply (fetched_cons _ m m1 m' options); [reflexivity | reflexivity | exact Hlog].
        -- rewrite Hall. simpl. rewrite <- app_assoc. reflexivity.
        -- destruct (stops (this_first (this m)) result) eqn:Hs; simpl in Hend.
           ++ subst pages. exists [], result. repeat split; [constructor | exact Hs].
           ++ destruct Hend as (before & last & -> & Hb & Hl).
              exists (result :: before), last. repeat split; [constructor | ]; assumption.
        -- exact Hdone.
        -- exact Hfirst.
      * destruct IH as (pages & Hlog & Hall & Hlen & Hs & Hmore).
        apply negb_true_iff in Hs.
        exists (result :: pages). split; [| split; [| split; [| split]]].
        -- apply (fetched_cons _ m m1 m' options); [reflexivity | reflexivity | exact Hlog].
        -- constructor; assumption.
        -- simpl. rewrite Hlen. reflexivity.
        -- reflexivity.
        -- exact Hmore.
  - exists []. split; [apply fetched_nil |]. rewrite app_nil_r. auto.
Qed.

Lemma fetchAll_explained (fuel : nat) (m : Machine) :
  hasMore (this m) = true ->
  explains (this_first (this m)) fuel m (fetchAll fetchPage fuel m).
Proof.
  intros Hm. unfold fetchAll, explains.
  pose proof (fetchAll_loop_trace fuel [] m) as H.
  destruct (fetchAll_loop fetchPage fuel [] m) as [[[e | all] |] m'].
  - destruct H as (pages & H1 & H2 & _). eauto.
  - destruct H as (pages & H1 & H2 & H3 & _). rewrite Hm in H3. eauto.
  - destruct H as (pages & H1 & H2 & H3 & _). eauto.
Qed.

(** *** The two loops do the same *)

Lemma body_advance (l : Locals) (p : Paginator) (result : PaginatedResult T) :
  loc_hasNextPage l = hasMore p ->
  loc_after l = currentCursor p ->
  let l' := fetchAllPages_body (this_first p) l result in
  allNodes l' = allNodes l ++ nodes result /\
  loc_hasNextPage l' = hasMore (advance p result) /\
  loc_after l' = currentCursor (advance p result).
Proof.
  intros H1 H2. unfold fetchAllPages_body, advance.
  destruct (no_next_page result), (short_page result _); simpl; auto.
Qed.

Lemma loops_agree (fuel : nat) : forall (m1 m2 : Machine) (l : Locals),
  backend m1 = backend m2 ->
  requests m1 = requests m2 ->
  loc_hasNextPage l = hasMore (this m1) ->
  loc_after l = currentCursor (this m1) ->
  observable (fetchAll_loop fetchPage fuel (allNodes l) m1) =
  observable (fetchAllPages_loop fetchPage fuel (this_first (this m1)) l m2).
Proof.
  induction fuel as [| fuel IH]; intros m1 m2 l Hb Hr Hh Ha; simpl; rewrite Hh;
    destruct (hasMore (this m1)) eqn:Hm;
    try (unfold observable; simpl; congruence).
  rewrite (nextPage_fetch m1 Hm). cbv zeta. unfold await_fetchPage.
  rewrite Ha, <- Hb.
  destruct (fetchPage _ (backend m1)) as [[e | result] w].
  - unfold observable. simpl. rewrite Hr. reflexivity.
  - rewrite <- Hm in Hh.
    destruct (body_advance l (this m1) result Hh Ha) as (H1 & H2 & H3).
    match goal with
    | |- observable (fetchAll_loop _ _ _ ?a) = observable (fetchAllPages_loop _ _ _ ?l' ?b) =>
        pose proof (IH a b l') as IH'
    end.
    simpl in IH'. rewrite advance_first, H1 in IH'.
    apply IH'; [reflexivity | rewrite Hr; reflexivity | assumption | assumption].
Qed.

Lemma explains_observable (n : Z) (fuel : nat) (m1 m2 : Machine)
    (r1 r2 : option (E + list T) * Machine) :
  requests m1 = requests m2 ->
  observable r1 = observable r2 ->
  explains n fuel m1 r1 -> explains n fuel m2 r2.
Proof.
  destruct r1 as [o1 m1'], r2 as [o2 m2']. unfold observable. simpl.
  intros Hr Ho. injection Ho as -> _ Hr'.
  unfold explains, fetched. rewrite Hr, Hr'. auto.
Qed.

Lemma fetchAllPages_explained (fuel : nat) (options : option PaginationOptions) (m : Machine) :
  let options' := default_to {| first := Some 50; after := None |} options in
  explains (number_or (first options') 50) fuel m (fetchAllPages fetchPage fuel options m).
Proof.
  intros options'. unfold fetchAllPages. fold options'.
  set (n := number_or (first options') 50).
  set (l := {| allNodes := []; loc_hasNextPage := true; loc_after := after options' |}).
  set (m1 := {| this := {| this_first := n; currentCursor := after options'; hasMore := true |};
                backend := backend m; requests := requests m |}).
  apply (explains_observable n fuel m1 m (fetchAll fetchPage fuel m1)); [reflexivity | |].
  - apply (loops_agree fuel m1 m l); reflexivity.
  - apply (fetchAll_explained fuel m1). reflexivity.
Qed.

(** *** Deterministic backends *)

Lemma nextPage_first (m : Machine) :
  this_first (this (snd (nextPage fetchPage m))) = this_first (this m).
Proof.
  destruct (hasMore (this m)) eqn:Hm.
  - rewrite (nextPage_fetch m Hm). cbv zeta.
    destruct (fetchPage _ _) as [[e | result] w]; simpl; [reflexivity | apply advance_first].
  - rewrite (nextPage_exhausted m Hm). reflexivity.
Qed.

Lemma fetchAll_loop_first (fuel : nat) : forall (acc : list T) (m : Machine),
  this_first (this (snd (fetchAll_loop fetchPage fuel acc m))) = this_first (this m).
Proof.
  induction fuel as [| fuel IH]; intros acc m; simpl;
    destruct (hasMore (this m)); try reflexivity.
  pose proof (nextPage_first m) as H.
  destruct (nextPage fetchPage m) as [[e | result] m1]; simpl in *; [exact H |].
  rewrite IH. exact H.
Qed.

Lemma run_calls_first (fuel : nat) (calls : list Call) : forall (m m' : Machine),
  run_calls fetchPage fuel calls m = Some m' ->
  this_first (this m') = this_first (this m).
Proof.
  induction calls as [| c calls IH]; intros m m' H; simpl in H.
  - congruence.
  - destruct c.
    + apply IH in H. rewrite H. apply nextPage_first.
    + apply IH in H. rewrite H. reflexivity.
    + apply IH in H. rewrite H. reflexivity.
    + pose proof (fetchAll_loop_first fuel [] m) as Hf. unfold fetchAll in H.
      destruct (fetchAll_loop fetchPage fuel [] m) as [[o |] m1]; [| discriminate].
      apply IH in H. rewrite H. exact Hf.
Qed.

Lemma nextPage_deterministic (m1 m2 : Machine) :
  deterministic fetchPage ->
  this m1 = this m2 ->
  fst (nextPage fetchPage m1) = fst (nextPage fetchPage m2) /\
  this (snd (nextPage fetchPage m1)) = this (snd (nextPage fetchPage m2)).
Proof.
  intros Hd Ht. destruct (hasMore (this m1)) eqn:Hm.
  - rewrite (nextPage_fetch m1 Hm). rewrite Ht in Hm. rewrite (nextPage_fetch m2 Hm).
    cbv zeta. rewrite Ht.
    pose proof (Hd {| first := Some (this_first (this m2)); after := currentCursor (this m2) |}
                  (backend m1) (backend m2)) as H.
    destruct (fetchPage _ (backend m1)) as [r1 w1], (fetchPage _ (backend m2)) as [r2 w2].
    simpl in H. subst r2. destruct r1; simpl; auto.
  - rewrite (nextPage_exhausted m1 Hm). rewrite Ht in Hm. rewrite (nextPage_exhausted m2 Hm).
    auto.
Qed.

Lemma fetchAll_loop_deterministic (fuel : nat) : forall (acc : list T) (m1 m2 : Machine),
  deterministic fetchPage ->
  this m1 = this m2 ->
  fst (fetchAll_loop fetchPage fuel acc m1) = fst (fetchAll_loop fetchPage fuel acc m2).
Proof.
  induction fuel as [| fuel IH]; intros acc m1 m2 Hd Ht; simpl; rewrite Ht;
    destruct (hasMore (this m2)); try reflexivity.
  destruct (nextPage_deterministic m1 m2 Hd Ht) as [H1 H2].
  destruct (nextPage fetchPage m1) as [r1 m1'], (nextPage fetchPage m2) as [r2 m2'].
  simpl in H1, H2. subst r2. destruct r1; [reflexivity |]. apply IH; assumption.
Qed.

(** *** When a page ends the traversal *)

Lemma short_page_lt (result : PaginatedResult T) (n : Z) :
  short_page result n = true <-> Z.of_nat (length (nodes result)) < n.
Proof. unfold short_page. apply Z.ltb_lt. Qed.

Lemma stops_true (n : Z) (result : PaginatedResult T) :
  stops n result = true <->
  pageInfo result = None \/
  (exists info, pageInfo result = Some info /\
     (hasNextPage info = false \/ endCursor info = None \/ endCursor info = Some "")) \/
  Z.of_nat (length (nodes result)) < n.
Proof.
  unfold stops. rewrite orb_true_iff, no_next_page_true, short_page_lt. tauto.
Qed.

Lemma stops_false (n : Z) (result : PaginatedResult T) :
  stops n result = false ->
  exists c, pageInfo result = Some {| hasNextPage := true; endCursor := Some c |} /\
            c <> "" /\ result_endCursor result = Some c.
Proof.
  unfold stops. intros H. apply orb_false_iff in H as [H _].
  apply no_next_page_false in H as (c & H & Hc).
  exists c. unfold result_endCursor. rewrite H. auto.
Qed.

Lemma body_hasNextPage (n : Z) (l : Locals) (result : PaginatedResult T) :
  loc_hasNextPage l = true ->
  loc_hasNextPage (fetchAllPages_body n l result) = negb (stops n result).
Proof.
  intros H. unfold fetchAllPages_body, stops.
  destruct (no_next_page result), (short_page result n); simpl; auto.
Qed.

Lemma body_after (n : Z) (l : Locals) (result : PaginatedResult T) :
  no_next_page result = false ->
  loc_after (fetchAllPages_body n l result) = result_endCursor result.
Proof.
  intros H. unfold fetchAllPages_body. rewrite H.
  destruct (short_page result n); reflexivity.
Qed.

(** *** A backend none of whose pages ends the traversal *)

Lemma never_stops_diverges (n : Z) :
  (forall options w, exists page w',
      fetchPage options w = (inr page, w') /\ stops n page = false) ->
  forall (fuel : nat) (acc : list T) (m : Machine),
    hasMore (this m) = true ->
    this_first (this m) = n ->
    fst (fetchAll_loop fetchPage fuel acc m) = None.
Proof.
  intros Hb. induction fuel as [| fuel IH]; intros acc m Hm Hn; simpl; rewrite Hm.
  - reflexivity.
  - rewrite (nextPage_fetch m Hm). cbv zeta.
    destruct (Hb {| first := Some (this_first (this m)); after := currentCursor (this m) |}
                 (backend m)) as (page & w' & -> & Hs).
    apply IH; simpl.
    + rewrite (advance_hasMore _ _ Hm), Hn, Hs. reflexivity.
    + rewrite advance_first. exact Hn.
Qed.

(** *** Rejections *)

Lemma lookup_fmap_inr_app (pages : list (PaginatedResult T)) (e e' : E) (i : nat) :
  ((inr <$> pages) ++ [inl e'] : list (Settled T E)) !! i = Some (inl e) ->
  e' = e /\ S i = length ((inr <$> pages) ++ [inl e'] : list (Settled T E)).
Proof.
  revert i. induction pages as [| p pages IH]; intros i; simpl.
  - destruct i; simpl; [| discriminate]. intros [= ->]. auto.
  - destruct i; simpl; [discriminate |]. intros H. apply IH in H as [-> H]. auto.
Qed.

Lemma lookup_fmap_inr (pages : list (PaginatedResult T)) (e : E) (i : nat) :
  ((inr <$> pages) : list (Settled T E)) !! i = Some (inl e) -> False.
Proof.
  revert i. induction pages as [| p pages IH]; intros i; simpl.
  - destruct i; discriminate.
  - destruct i; simpl; [discriminate | apply IH].
Qed.

Lemma fetchAll_rejections (fuel : nat) (m : Machine) :
  exists entries,
    requests (snd (fetchAll fetchPage fuel m)) = requests m ++ entries /\
    forall i e, (snd <$> entries) !! i = Some (inl e) ->
      fst (fetchAll fetchPage fuel m) = Some (inl e) /\ S i = length entries.
Proof.
  unfold fetchAll. pose proof (fetchAll_loop_trace fuel [] m) as H.
  destruct (fetchAll_loop fetchPage fuel [] m) as [[[e' | all] |] m']; simpl;
    destruct H as (pages & (entries & Hr & Ho & _) & _); exists entries;
    (split; [exact Hr |]); intros i e Hi; rewrite Ho in Hi.
  - apply lookup_fmap_inr_app in Hi as [-> Hi]. rewrite <- Ho, length_fmap in Hi. auto.
  - destruct (lookup_fmap_inr _ _ _ Hi).
  - destruct (lookup_fmap_inr _ _ _ Hi).
Qed.

(** *** Scenario B *)

Lemma scenarioB_general (P1 P2 : PaginatedResult T) (w0 w1 w2 : W) (fuel : nat) :
  fetchPage {| first := Some 50; after := None |} w0 = (inr P1, w1) ->
  length (nodes P1) = 50%nat ->
  pageInfo P1 = Some {| hasNextPage := true; endCursor := Some "c1" |} ->
  fetchPage {| first := Some 50; after := Some "c1" |} w1 = (inr P2, w2) ->
  length (nodes P2) = 12%nat ->
  (2 <= fuel)%nat ->
  exists m',
    fetchAll fetchPage fuel (fresh (Some 50) w0) = (Some (inr (nodes P1 ++ nodes P2)), m') /\
    length (nodes P1 ++ nodes P2) = 62%nat /\
    requests m' = [({| first := Some 50; after := None |}, inr P1);
                   ({| first := Some 50; after := Some "c1" |}, inr P2)].
Proof.
  intros H1 L1 I1 H2 L2 Hfuel.
  destruct fuel as [| [| fuel]]; [lia | lia |].
  unfold fetchAll. cbn [fetchAll_loop fresh this new_Paginator hasMore].
  rewrite nextPage_fetch by reflexivity. cbn [this backend new_Paginator default_to
    this_first currentCursor requests fresh]. cbv zeta. rewrite H1.
  assert (A1 : advance (new_Paginator (Some 50)) P1 =
               {| this_first := 50; currentCursor := Some "c1"; hasMore := true |}).
  { unfold advance, no_next_page, short_page, result_endCursor. rewrite I1, L1. reflexivity. }
  rewrite A1. cbn [this hasMore].
  rewrite nextPage_fetch by reflexivity. cbn [this backend this_first currentCursor requests].
  cbv zeta. rewrite H2.
  assert (A2 : hasMore (advance {| this_first := 50; currentCursor := Some "c1"; hasMore := true |} P2)
               = false).
  { rewrite advance_hasMore by reflexivity. unfold stops, short_page. rewrite L2.
    cbn [this_first]. rewrite orb_true_r. reflexivity. }
  destruct fuel; cbn [fetchAll_loop this]; rewrite A2;
    (eexists; split; [reflexivity | split; [| reflexivity]]);
    rewrite length_app, L1, L2; reflexivity.
Qed.

(** C1, as amended: a call of [nextPage] (and an iteration of the loop of
    [fetchAllPages]) whose fetch returns the page [P], requested with page
    size [first], returns [P] and sets [hasMore] (resp. the local
    [hasNextPage]) to false iff [P] has no [pageInfo], or
    [pageInfo.hasNextPage] is false, or [pageInfo.endCursor] is absent or the
    empty string, or [P.nodes.length < first], whatever the metadata says;
    otherwise the cursor advances to [P.pageInfo.endCursor].  For a backend
    whose page 1 has 50 nodes, [hasNextPage] true and [endCursor] "c1" and
    whose page after "c1" has 12 nodes, [fetchAll] with [first = 50] makes
    these two requests only and returns the 62 items in order. *)
Theorem C1_short_page_guard (m : Machine) (P : PaginatedResult T) (w : W) :
  hasMore (this m) = true ->
  fetchPage {| first := Some (this_first (this m)); after := currentCursor (this m) |}
    (backend m) = (inr P, w) ->
  let ends_traversal :=
    pageInfo P = None \/
    (exists info, pageInfo P = Some info /\
       (hasNextPage info = false \/ endCursor info = None \/ endCursor info = Some "")) \/
    Z.of_nat (length (nodes P)) < this_first (this m) in
  let m' := snd (nextPage fetchPage m) in
  fst (nextPage fetchPage m) = inr P /\
  (hasMore (this m') = false <-> ends_traversal) /\
  (hasMore (this m') = true ->
     exists c, pageInfo P = Some {| hasNextPage := true; endCursor := Some c |} /\
               currentCursor (this m') = Some c) /\
  (forall l : Locals (T := T), loc_hasNextPage l = true ->
     let l' := fetchAllPages_body (this_first (this m)) l P in
     (loc_hasNextPage l' = false <-> ends_traversal) /\
     (loc_hasNextPage l' = true ->
        exists c, pageInfo P = Some {| hasNextPage := true; endCursor := Some c |} /\
                  loc_after l' = Some c)) /\
  (forall (P1 P2 : PaginatedResult T) (w0 w1 w2 : W) (fuel : nat),
     fetchPage {| first := Some 50; after := None |} w0 = (inr P1, w1) ->
     length (nodes P1) = 50%nat ->
     pageInfo P1 = Some {| hasNextPage := true; endCursor := Some "c1" |} ->
     fetchPage {| first := Some 50; after := Some "c1" |} w1 = (inr P2, w2) ->
     length (nodes P2) = 12%nat ->
     (2 <= fuel)%nat ->
     exists m2,
       fetchAll fetchPage fuel (fresh (Some 50) w0) = (Some (inr (nodes P1 ++ nodes P2)), m2) /\
       length (nodes P1 ++ nodes P2) = 62%nat /\
       requests m2 = [({| first := Some 50; after := None |}, inr P1);
                      ({| first := Some 50; after := Some "c1" |}, inr P2)]).
Proof.
  intros Hm Hf ends_traversal m'. subst m'.
  rewrite (nextPage_fetch m Hm). cbv zeta. rewrite Hf. cbn [fst snd this].
  assert (Hends : forall b, b = negb (stops (this_first (this m)) P) ->
                            (b = false <-> ends_traversal)).
  { intros b ->. rewrite negb_false_iff. apply stops_true. }
  assert (Hcont : forall b, b = negb (stops (this_first (this m)) P) -> b = true ->
            exists c, pageInfo P = Some {| hasNextPage := true; endCursor := Some c |} /\
                      result_endCursor P = Some c /\ no_next_page P = false).
  { intros b -> Hb. apply negb_true_iff in Hb.
    destruct (stops_false _ _ Hb) as (c & H1 & _ & H2).
    unfold stops in Hb. apply orb_false_iff in Hb as [Hb _]. eauto. }
  split; [reflexivity |]. split; [| split; [| split]].
  - apply Hends, advance_hasMore, Hm.
  - intros Hb. destruct (Hcont _ (advance_hasMore _ P Hm) Hb) as (c & H1 & H2 & H3).
    exists c. split; [exact H1 |]. rewrite advance_cursor by exact H3. exact H2.
  - intros l Hl. split.
    + apply Hends, body_hasNextPage, Hl.
    + intros Hb.
      destruct (Hcont _ (body_hasNextPage (this_first (this m)) l P Hl) Hb) as (c & H1 & H2 & H3).
      exists c. split; [exact H1 |]. rewrite body_after by exact H3. exact H2.
  - intros P1 P2 w0 w1 w2 fuel. apply scenarioB_general.
Qed.

(** C2, as amended: [fetchAll] and [fetchAllPages] return exactly when a
    fetched page has [nodes.length < first], or reports [hasNextPage] false,
    or has no [pageInfo], or has no or an empty [endCursor]: a run that
    returns has stopped at the first such page and returns the items of the
    pages in fetch order, a run that is rejected has stopped at the rejected
    call, and a run that is still going after [fuel] iterations has fetched
    [fuel] pages none of which is such a page.  There is no bound on the
    number of pages: on a backend all of whose pages are full and report a
    next page with a non-empty cursor, neither returns, however much fuel
    is given. *)
Theorem C2_fetchAll_termination (m : Machine) (fuel : nat) :
  hasMore (this m) = true ->
  explains (this_first (this m)) fuel m (fetchAll fetchPage fuel m) /\
  (forall options : option PaginationOptions,
     let n := number_or (first (default_to {| first := Some 50; after := None |} options)) 50 in
     explains n fuel m (fetchAllPages fetchPage fuel options m) /\
     ((forall options w, exists page w',
          fetchPage options w = (inr page, w') /\ stops n page = false) ->
      fst (fetchAllPages fetchPage fuel options m) = None)) /\
  ((forall options w, exists page w',
       fetchPage options w = (inr page, w') /\ stops (this_first (this m)) page = false) ->
   fst (fetchAll fetchPage fuel m) = None).
Proof.
  intros Hm. split; [| split].
  - apply fetchAll_explained, Hm.
  - intros options n. split; [apply fetchAllPages_explained |].
    intros Hb. unfold fetchAllPages.
    set (options' := default_to {| first := Some 50; after := None |} options) in *.
    set (l := {| allNodes := []; loc_hasNextPage := true; loc_after := after options' |}).
    set (m1 := {| this := {| this_first := n; currentCursor := after options'; hasMore := true |};
                  backend := backend m; requests := requests m |}).
    assert (H : observable (fetchAll_loop fetchPage fuel [] m1) =
                observable (fetchAllPages_loop fetchPage fuel n l m))
      by (apply (loops_agree fuel m1 m l); reflexivity).
    unfold observable in H. injection H as H _ _.
    change (fst (fetchAllPages_loop fetchPage fuel n l m) = None). rewrite <- H.
    apply (never_stops_diverges n Hb); reflexivity.
  - intros Hb. apply (never_stops_diverges _ Hb); [exact Hm | reflexivity].
Qed.

(** C3: when [hasMore] is false, [nextPage] returns the empty page
    [{ nodes: [] }] and leaves the whole state as it was: the receiver
    ([currentCursor], [hasMore], [first]), the backend and the log of
    requests, to which no call is added; so do any number of calls in a
    row. *)
Theorem C3_nextPage_after_exhaustion (m : Machine) (k : nat) :
  hasMore (this m) = false ->
  nextPage fetchPage m = (inr {| nodes := []; pageInfo := None |}, m) /\
  nextPage_times fetchPage k m =
    (replicate k (inr {| nodes := []; pageInfo := None |}), m).
Proof.
  intros Hm. split; [apply nextPage_exhausted, Hm |].
  induction k as [| k IH]; simpl; [reflexivity |].
  rewrite (nextPage_exhausted m Hm), IH. reflexivity.
Qed.

(** C4: over a deterministic backend, after any sequence of calls of
    [nextPage], [hasNextPage], [reset] and [fetchAll] on a [Paginator],
    [reset] restores the state of a freshly constructed [Paginator] (cursor
    undefined, [hasMore] true, same page size), and a [fetchAll] after it
    does what a [fetchAll] on a freshly constructed [Paginator] does: the same
    items in the same order, the same rejection, or no return. *)
Theorem C4_reset_then_fetchAll (first : option Z) (w0 w : W) (calls : list Call)
    (fuel fuel' : nat) (m1 : Machine) :
  deterministic fetchPage ->
  run_calls fetchPage fuel calls (fresh first w0) = Some m1 ->
  this (snd (reset m1)) = new_Paginator first /\
  fst (fetchAll fetchPage fuel' (snd (reset m1))) =
  fst (fetchAll fetchPage fuel' (fresh first w)).
Proof.
  intros Hd Hrun.
  assert (Ht : this (snd (reset m1)) = new_Paginator first).
  { apply run_calls_first in Hrun. simpl in *. unfold set_hasMore, set_currentCursor. simpl.
    rewrite Hrun. reflexivity. }
  split; [exact Ht |].
  apply fetchAll_loop_deterministic; [exact Hd | exact Ht].
Qed.

(** C5: for a positive page size [first], [fetchAll] on a freshly
    constructed [Paginator(fetchPage, first)] and
    [fetchAllPages(fetchPage, { first })] do the same: the same calls of the
    backend, and the same items in the same order (or the same rejection, or
    no return); this holds for every backend, deterministic or not. *)
Theorem C5_fetchAll_is_fetchAllPages (first : Z) (m : Machine) (fuel : nat) :
  0 < first ->
  observable (fetchAll fetchPage fuel
                {| this := new_Paginator (Some first); backend := backend m;
                   requests := requests m |}) =
  observable (fetchAllPages fetchPage fuel (Some {| first := Some first; after := None |}) m).
Proof.
  intros Hpos. unfold fetchAll, fetchAllPages. cbn [default_to Pagination.first after number_or].
  destruct (first =? 0) eqn:H0; [apply Z.eqb_eq in H0; lia |].
  set (l := {| allNodes := []; loc_hasNextPage := true; loc_after := None |}).
  set (m1 := {| this := new_Paginator (Some first); backend := backend m; requests := requests m |}).
  apply (loops_agree fuel m1 m l); reflexivity.
Qed.

(** C8: when the fetch of [nextPage] is rejected with [e], [nextPage] is
    rejected with [e] after this one call of the backend, and so is a
    [fetchAll] that starts there; and whenever a call of the backend made by
    [fetchAll] is rejected with an error, [fetchAll] is rejected with this
    very error and this call is the last one that it makes. *)
Theorem C8_backend_errors_propagate (m : Machine) (e : E) (w : W) (fuel : nat) :
  hasMore (this m) = true ->
  fetchPage {| first := Some (this_first (this m)); after := currentCursor (this m) |}
    (backend m) = (inl e, w) ->
  let m' := {| this := this m; backend := w;
               requests := requests m ++
                 [({| first := Some (this_first (this m)); after := currentCursor (this m) |},
                   inl e)] |} in
  nextPage fetchPage m = (inl e, m') /\
  fetchAll fetchPage (S fuel) m = (Some (inl e), m') /\
  (forall (fuel0 : nat) (m0 : Machine),
     exists entries,
       requests (snd (fetchAll fetchPage fuel0 m0)) = requests m0 ++ entries /\
       forall i e0, (snd <$> entries) !! i = Some (inl e0) ->
         fst (fetchAll fetchPage fuel0 m0) = Some (inl e0) /\ S i = length entries).
Proof.
  intros Hm Hf m'. subst m'.
  assert (Hn : nextPage fetchPage m =
    (inl e, {| this := this m; backend := w;
               requests := requests m ++
                 [({| first := Some (this_first (this m)); after := currentCursor (this m) |},
                   inl e)] |})).
  { rewrite (nextPage_fetch m Hm). cbv zeta. rewrite Hf. reflexivity. }
  split; [exact Hn |]. split.
  - unfold fetchAll. simpl. rewrite Hm, Hn. reflexivity.
  - intros fuel0 m0. apply fetchAll_rejections.
Qed.

(** C9: when the fetch of [nextPage] is rejected, the receiver is as it was
    before the call ([currentCursor], [hasMore] and [first]), and the next
    call of [nextPage] asks the backend for the same page, with the same
    [{ first, after }]. *)
Theorem C9_nextPage_atomic_on_error (m : Machine) (e : E) (w : W) :
  hasMore (this m) = true ->
  fetchPage {| first := Some (this_first (this m)); after := currentCursor (this m) |}
    (backend m) = (inl e, w) ->
  let options := {| first := Some (this_first (this m)); after := currentCursor (this m) |} in
  let m' := snd (nextPage fetchPage m) in
  fst (nextPage fetchPage m) = inl e /\
  this m' = this m /\
  backend m' = w /\
  requests m' = requests m ++ [(options, inl e)] /\
  requests (snd (nextPage fetchPage m')) =
    requests m ++ [(options, inl e); (options, fst (fetchPage options w))].
Proof.
  intros Hm Hf. cbv zeta.
  rewrite (nextPage_fetch m Hm). cbv zeta. rewrite Hf. cbn [fst snd this backend requests].
  repeat split.
  rewrite nextPage_fetch by exact Hm. cbn [this backend requests]. cbv zeta.
  destruct (fetchPage _ w) as [[e' | r] w']; cbn [fst snd requests];
    rewrite <- app_assoc; reflexivity.
Qed.

End Facts.

(** *** Instances *)

(** C1 as stated fails for a full page whose metadata reports a next page
    with the empty string as cursor: [nextPage] sets [hasMore] to false,
    though the page has a [pageInfo], [hasNextPage] is true, [endCursor] is
    present and the page is not short. *)
Lemma C1_empty_cursor_stops :
  fst (nextPage empty_cursor_backend (fresh (Some 1) tt)) = inr empty_cursor_page /\
  hasMore (this (snd (nextPage empty_cursor_backend (fresh (Some 1) tt)))) = false /\
  ~ (pageInfo empty_cursor_page = None \/
     (exists info, pageInfo empty_cursor_page = Some info /\
        (hasNextPage info = false \/ endCursor info = None)) \/
     Z.of_nat (length (nodes empty_cursor_page)) < 1).
Proof.
  split; [reflexivity | split; [reflexivity |]].
  intros [H | [(info & H & [H' | H']) | H]].
  - discriminate.
  - injection H as <-. discriminate.
  - injection H as <-. discriminate.
  - simpl in H. lia.
Qed.

Lemma C1_witness :
  fst (nextPage scenarioB_backend (fresh (Some 50) tt)) = inr scenarioB_page1 /\
  hasMore (this (snd (nextPage scenarioB_backend (fresh (Some 50) tt)))) = true /\
  exists m2,
    fetchAll scenarioB_backend 2 (fresh (Some 50) tt) = (Some (inr (items 0 62)), m2) /\
    requests m2 = [({| first := Some 50; after := None |}, inr scenarioB_page1);
                   ({| first := Some 50; after := Some "c1" |}, inr scenarioB_page2)].
Proof.
  destruct (C1_short_page_guard scenarioB_backend (fresh (Some 50) tt) scenarioB_page1 tt
              eq_refl eq_refl) as (H1 & H2 & H3 & H4 & H5).
  split; [exact H1 | split; [reflexivity |]].
  destruct (H5 scenarioB_page1 scenarioB_page2 tt tt tt 2%nat
              eq_refl eq_refl eq_refl eq_refl eq_refl (le_n 2)) as (m2 & F & L & R).
  exists m2. split; [exact F | exact R].
Defined.

(** C2 as stated fails on a backend that always returns a full page (one
    item asked for, one item returned) and always reports a next page:
    neither [fetchAll] nor [fetchAllPages] returns, whatever the fuel. *)
Lemma C2_endless_backend_never_returns :
  (length (nodes endless_page) = 1%nat /\
   pageInfo endless_page = Some {| hasNextPage := true; endCursor := Some "c" |}) /\
  ~ (exists fuel r, fst (fetchAll endless_backend fuel (fresh (Some 1) tt)) = Some r) /\
  ~ (exists fuel r,
       fst (fetchAllPages endless_backend fuel (Some {| first := Some 1; after := None |})
              (fresh None tt)) = Some r).
Proof.
  assert (Hb : forall (options : PaginationOptions) (w : unit), exists page w',
             endless_backend options w = (inr page, w') /\ stops 1 page = false).
  { intros options w. exists endless_page, w. split; reflexivity. }
  split; [split; reflexivity |]. split; intros (fuel & r & H).
  - unfold fetchAll in H.
    rewrite (never_stops_diverges endless_backend 1 Hb) in H by reflexivity. discriminate.
  - pose proof (loops_agree endless_backend fuel (fresh (Some 1) tt) (fresh None tt)
                  {| allNodes := []; loc_hasNextPage := true; loc_after := None |}
                  eq_refl eq_refl eq_refl eq_refl) as Ha.
    unfold observable in Ha. injection Ha as Ha _ _.
    unfold fetchAllPages in H. cbn [default_to first after number_or Z.eqb] in H.
    cbn [fresh this new_Paginator default_to this_first allNodes] in Ha.
    rewrite <- Ha in H.
    rewrite (never_stops_diverges endless_backend 1 Hb) in H by reflexivity. discriminate.
Qed.

Lemma C2_witness :
  explains 50 2 (fresh (Some 50) tt) (fetchAll scenarioB_backend 2 (fresh (Some 50) tt)).
Proof.
  exact (proj1 (C2_fetchAll_termination scenarioB_backend (fresh (Some 50) tt) 2 eq_refl)).
Defined.

Lemma C3_witness :
  nextPage_times scenarioB_backend 3
    {| this := {| this_first := 50; currentCursor := Some "c1"; hasMore := false |};
       backend := tt; requests := [] |} =
  (replicate 3 (inr {| nodes := []; pageInfo := None |}),
   {| this := {| this_first := 50; currentCursor := Some "c1"; hasMore := false |};
      backend := tt; requests := [] |}).
Proof.
  exact (proj2 (C3_nextPage_after_exhaustion scenarioB_backend
                  {| this := {| this_first := 50; currentCursor := Some "c1"; hasMore := false |};
                     backend := tt; requests := [] |} 3 eq_refl)).
Defined.

Lemma scenarioB_deterministic : deterministic scenarioB_backend.
Proof.
  intros options w1 w2. unfold scenarioB_backend.
  destruct (after options) as [c |]; [destruct (String.eqb c "c1") |]; reflexivity.
Qed.

Lemma C4_witness :
  exists m1,
    run_calls scenarioB_backend 5 [call_nextPage; call_fetchAll; call_nextPage]
      (fresh (Some 50) tt) = Some m1 /\
    this (snd (reset m1)) = new_Paginator (Some 50) /\
    fst (fetchAll scenarioB_backend 3 (snd (reset m1))) =
    fst (fetchAll scenarioB_backend 3 (fresh (Some 50) tt)).
Proof.
  eexists. split; [reflexivity |].
  exact (C4_reset_then_fetchAll scenarioB_backend (Some 50) tt tt
           [call_nextPage; call_fetchAll; call_nextPage] 5 3 _
           scenarioB_deterministic eq_refl).
Defined.

Lemma C5_witness :
  observable (fetchAll scenarioB_backend 3 (fresh (Some 50) tt)) =
  observable (fetchAllPages scenarioB_backend 3 (Some {| first := Some 50; after := None |})
                (fresh None tt)).
Proof.
  exact (C5_fetchAll_is_fetchAllPages scenarioB_backend 50 (fresh None tt) 3 eq_refl).
Defined.

Lemma C8_witness :
  nextPage flaky_backend (fresh (Some 1) 1%nat) =
    (inl "timeout",
     {| this := new_Paginator (Some 1); backend := 2%nat;
        requests := [({| first := Some 1; after := None |}, inl "timeout")] |}) /\
  fetchAll flaky_backend 3 (fresh (Some 1) 1%nat) =
    (Some (inl "timeout"),
     {| this := new_Paginator (Some 1); backend := 2%nat;
        requests := [({| first := Some 1; after := None |}, inl "timeout")] |}).
Proof.
  destruct (C8_backend_errors_propagate flaky_backend (fresh (Some 1) 1%nat) "timeout" 2%nat 2
              eq_refl eq_refl) as (H1 & H2 & _).
  split; [exact H1 | exact H2].
Defined.

Lemma C9_witness :
  this (snd (nextPage flaky_backend (fresh (Some 1) 1%nat))) = new_Paginator (Some 1) /\
  requests (snd (nextPage flaky_backend (snd (nextPage flaky_backend (fresh (Some 1) 1%nat))))) =
    [({| first := Some 1; after := None |}, inl "timeout");
     ({| first := Some 1; after := None |}, inr {| nodes := []; pageInfo := None |})].
Proof.
  destruct (C9_nextPage_atomic_on_error flaky_backend (fresh (Some 1) 1%nat) "timeout" 2%nat
              eq_refl eq_refl) as (_ & H1 & _ & _ & H2).
  split; [exact H1 | exact H2].
Defined.

End PaginationFacts.

Module CycleResourcesFacts.
Import Pagination CycleResources.

Section Facts.

Context {E Date : Type}.
Variable sdk_teams : Z -> option string -> E + PaginatedResult Team.
Variable sdk_cycles : Z -> option string -> string -> E + PaginatedResult (Cycle Date).
Variable toLocaleDateString : Date -> string.

Local Abbreviation team_cycles := (team_cycles sdk_cycles toLocaleDateString).
Local Abbreviation cycle_resource := (cycle_resource toLocaleDateString).
Local Abbreviation cycles_list := (cycles_list sdk_teams sdk_cycles toLocaleDateString).
Local Abbreviation in_team_order := (in_team_order toLocaleDateString).

(** *** The queries sent for the teams *)

Lemma team_cycles_log (team : Team) (log : list Query) :
  team_cycles team log =
    (fst (team_cycles team []), log ++ [cycles_query 50 None (team_id team)]).
Proof.
  unfold CycleResources.team_cycles, listCycles. simpl.
  destruct (sdk_cycles 50 None (team_id team)); reflexivity.
Qed.

Lemma map_async_team_cycles (teams : list Team) : forall log : list Query,
  map_async team_cycles teams log =
    ((fun team => fst (team_cycles team [])) <$> teams,
     log ++ ((fun team => cycles_query 50 None (team_id team)) <$> teams)).
Proof.
  induction teams as [| team teams IH]; intros log; simpl.
  - rewrite app_nil_r. reflexivity.
  - rewrite team_cycles_log, IH, <- app_assoc. reflexivity.
Qed.

Lemma team_cycles_fulfilled (team : Team) (cycles : PaginatedResult (Cycle Date)) :
  sdk_cycles 50 None (team_id team) = inr cycles ->
  fst (team_cycles team []) = inr (cycle_resource team <$> nodes cycles).
Proof.
  intros H. unfold CycleResources.team_cycles, listCycles. simpl. rewrite H. reflexivity.
Qed.

(** *** [Promise.all] of promises that are all fulfilled *)

Lemma settle_fulfilled {A : Type} (vs : list A) : forall (sched : list nat) (values : list (option A)),
  length values = length vs ->
  exists values',
    settle (E := E) (inr <$> vs) sched values = inr values' /\
    length values' = length vs /\
    forall i, values' !! i = if decide (i ∈ sched) then Some <$> (vs !! i) else values !! i.
Proof.
  induction sched as [| j sched IH]; intros values Hlen; simpl.
  - exists values. split; [reflexivity | split; [exact Hlen |]].
    intros i. destruct (decide (i ∈ [])) as [Hi | _]; [inversion Hi | reflexivity].
  - rewrite list_lookup_fmap. destruct (vs !! j) as [v |] eqn:Hj; simpl.
    + destruct (IH (<[j := Some v]> values)) as (values' & Hs & Hl & Hv).
      { rewrite length_insert. exact Hlen. }
      exists values'. split; [exact Hs | split; [exact Hl |]].
      intros i. rewrite Hv.
      destruct (decide (i ∈ sched)) as [Hi | Hi].
      * rewrite decide_True by (right; exact Hi). reflexivity.
      * destruct (decide (i = j)) as [-> | Hne].
        -- rewrite decide_True by left. rewrite Hj. simpl.
           apply list_lookup_insert_eq. rewrite Hlen.
           apply lookup_lt_is_Some. eauto.
        -- rewrite decide_False by (intros [-> | H]%elem_of_cons; tauto).
           apply list_lookup_insert_ne. congruence.
    + destruct (IH values Hlen) as (values' & Hs & Hl & Hv).
      exists values'. split; [exact Hs | split; [exact Hl |]].
      intros i. rewrite Hv.
      destruct (decide (i ∈ sched)) as [Hi | Hi].
      * rewrite decide_True by (right; exact Hi). reflexivity.
      * destruct (decide (i = j)) as [-> | Hne].
        -- rewrite decide_True by left. rewrite Hj. simpl.
           apply lookup_ge_None_2. rewrite Hlen. apply lookup_ge_None_1. exact Hj.
        -- rewrite decide_False by (intros [-> | H]%elem_of_cons; tauto).
           reflexivity.
Qed.

Lemma await_all_fulfilled {A : Type} (vs : list A) (sched : list nat) :
  sched ≡ₚ seq 0 (length vs) ->
  await_all (E := E) (inr <$> vs) sched = Some (inr vs).
Proof.
  intros Hp. unfold await_all. rewrite length_fmap.
  destruct (settle_fulfilled vs sched (replicate (length vs) None)) as (values' & -> & Hl & Hv).
  { apply length_replicate. }
  assert (Heq : values' = Some <$> vs).
  { apply list_eq. intros i. rewrite Hv, list_lookup_fmap.
    destruct (decide (i ∈ sched)) as [Hi | Hi]; [reflexivity |].
    rewrite Hp, elem_of_seq in Hi.
    rewrite (lookup_ge_None_2 vs i) by lia. simpl.
    apply lookup_ge_None_2. rewrite length_replicate. lia. }
  rewrite Heq, mapM_fmap_Some by reflexivity. reflexivity.
Qed.

(** *** The listing *)

Lemma cycles_list_log (sched : list nat) (log : list Query) :
  snd (cycles_list sched log) =
    log ++ teams_query 50 None ::
      match sdk_teams 50 None with
      | inl _ => []
      | inr teams => (fun team => cycles_query 50 None (team_id team)) <$> nodes teams
      end.
Proof.
  unfold CycleResources.cycles_list, listTeams. simpl.
  destruct (sdk_teams 50 None) as [e | teams]; [reflexivity |].
  rewrite map_async_team_cycles.
  destruct (await_all _ sched) as [[e | arrays] |]; simpl; rewrite <- app_assoc; reflexivity.
Qed.

Lemma cycles_list_fulfilled (sched : list nat) (log : list Query)
    (teams : PaginatedResult Team) (cycles : Team -> PaginatedResult (Cycle Date)) :
  sdk_teams 50 None = inr teams ->
  (forall team, team ∈ nodes teams -> sdk_cycles 50 None (team_id team) = inr (cycles team)) ->
  sched ≡ₚ seq 0 (length (nodes teams)) ->
  fst (cycles_list sched log) =
    Some (inr (in_team_order (nodes teams) (fun team => nodes (cycles team)))).
Proof.
  intros Ht Hc Hp. unfold CycleResources.cycles_list, listTeams. simpl. rewrite Ht.
  rewrite map_async_team_cycles.
  assert (Hps : (fun team => fst (team_cycles team [])) <$> nodes teams =
                inr <$> ((fun team => cycle_resource team <$> nodes (cycles team)) <$> nodes teams)).
  { rewrite <- list_fmap_compose. apply Forall_fmap_ext, Forall_forall.
    intros team Hin. apply team_cycles_fulfilled, Hc, Hin. }
  rewrite Hps, await_all_fulfilled by (rewrite length_fmap; exact Hp).
  reflexivity.
Qed.

(** C6: when the team listing and the cycle listings of its teams succeed,
    the [list] callback of [linear://cycles] returns the descriptors of the
    cycles of the first team of the team listing in page order, then those
    of the second team, and so on, in whatever order [sched] the queries for
    the cycles of the teams are answered; for 3 teams with 2 cycles each
    these are the 6 descriptors of team 1's two cycles, then team 2's two,
    then team 3's two. *)
Theorem C6_cycles_in_team_order (sched : list nat) (log : list Query)
    (teams : PaginatedResult Team) (cycles : Team -> PaginatedResult (Cycle Date)) :
  sdk_teams 50 None = inr teams ->
  (forall team, team ∈ nodes teams -> sdk_cycles 50 None (team_id team) = inr (cycles team)) ->
  sched ≡ₚ seq 0 (length (nodes teams)) ->
  fst (cycles_list sched log) =
    Some (inr (in_team_order (nodes teams) (fun team => nodes (cycles team)))) /\
  (forall t1 t2 t3 a1 b1 a2 b2 a3 b3,
     nodes teams = [t1; t2; t3] ->
     nodes (cycles t1) = [a1; b1] ->
     nodes (cycles t2) = [a2; b2] ->
     nodes (cycles t3) = [a3; b3] ->
     fst (cycles_list sched log) =
       Some (inr [cycle_resource t1 a1; cycle_resource t1 b1;
                  cycle_resource t2 a2; cycle_resource t2 b2;
                  cycle_resource t3 a3; cycle_resource t3 b3])).
Proof.
  intros Ht Hc Hp.
  pose proof (cycles_list_fulfilled sched log teams cycles Ht Hc Hp) as H.
  split; [exact H |].
  intros t1 t2 t3 a1 b1 a2 b2 a3 b3 Hn H1 H2 H3.
  rewrite H. unfold CycleResources.in_team_order. rewrite Hn. simpl.
  rewrite H1, H2, H3. reflexivity.
Qed.

(** C10: the [list] callback of [linear://cycles] has no pagination loop: it
    sends one query for teams, with [first = 50] and no cursor, and then one
    query per team of the page of teams that came back, with [first = 50]
    and no cursor, and nothing else.  So over a backend that serves the
    first [first] items of what it has, the listing consists of the first 50
    cycles of each of the first 50 teams: further teams and further cycles
    of a team are left out. *)
Theorem C10_one_page_per_query (sched : list nat) (log : list Query)
    (all_teams : list Team) (all_cycles : Team -> list (Cycle Date))
    (info : option PageInfo) (infos : Team -> option PageInfo) :
  sdk_teams 50 None = inr {| nodes := take 50 all_teams; pageInfo := info |} ->
  (forall team, sdk_cycles 50 None (team_id team) =
                inr {| nodes := take 50 (all_cycles team); pageInfo := infos team |}) ->
  sched ≡ₚ seq 0 (length (take 50 all_teams)) ->
  cycles_list sched log =
    (Some (inr (in_team_order (take 50 all_teams) (fun team => take 50 (all_cycles team)))),
     log ++ teams_query 50 None ::
       ((fun team => cycles_query 50 None (team_id team)) <$> take 50 all_teams)) /\
  (forall sched' log',
     snd (cycles_list sched' log') =
       log' ++ teams_query 50 None ::
         ((fun team => cycles_query 50 None (team_id team)) <$> take 50 all_teams)).
Proof.
  intros Ht Hc Hp.
  assert (Hlog : forall sched' log',
     snd (cycles_list sched' log') =
       log' ++ teams_query 50 None ::
         ((fun team => cycles_query 50 None (team_id team)) <$> take 50 all_teams)).
  { intros sched' log'. rewrite cycles_list_log, Ht. reflexivity. }
  split; [| exact Hlog].
  pose proof (cycles_list_fulfilled sched log _
                (fun team => {| nodes := take 50 (all_cycles team); pageInfo := infos team |})
                Ht (fun team _ => Hc team) Hp) as H.
  specialize (Hlog sched log).
  destruct (cycles_list sched log) as [r log2]. simpl in *. subst. reflexivity.
Qed.

End Facts.

(** *** Instances *)

Lemma C6_witness :
  fst (cycles_list (example_teams 3) (example_cycles 2) example_date [2; 0; 1]%nat []) =
    Some (inr [cycle_resource example_date (team_nr 0) (cycle_nr "0" 0);
               cycle_resource example_date (team_nr 0) (cycle_nr "0" 1);
               cycle_resource example_date (team_nr 1) (cycle_nr "1" 0);
               cycle_resource example_date (team_nr 1) (cycle_nr "1" 1);
               cycle_resource example_date (team_nr 2) (cycle_nr "2" 0);
               cycle_resource example_date (team_nr 2) (cycle_nr "2" 1)]).
Proof.
  assert (Hp : [2; 0; 1]%nat ≡ₚ seq 0 3).
  { change ([2; 0; 1]%nat ≡ₚ [0; 1; 2]%nat).
    apply perm_trans with [0; 2; 1]%nat; [apply perm_swap | apply perm_skip, perm_swap]. }
  destruct (C6_cycles_in_team_order (example_teams 3) (example_cycles 2) example_date
              [2; 0; 1]%nat []
              (example_page (team_nr <$> seq 0 3) 50)
              (fun team => example_page (cycle_nr (team_id team) <$> seq 0 2) 50)
              eq_refl (fun team _ => eq_refl) Hp) as [_ H].
  exact (H (team_nr 0) (team_nr 1) (team_nr 2) _ _ _ _ _ _ eq_refl eq_refl eq_refl eq_refl).
Defined.

Lemma C10_witness :
  length (team_nr <$> seq 0 51) = 51%nat /\
  cycles_list (example_teams 51) (example_cycles 1) example_date (seq 0 50) [] =
    (Some (inr (in_team_order example_date (take 50 (team_nr <$> seq 0 51))
                  (fun team => take 50 (cycle_nr (team_id team) <$> seq 0 1)))),
     teams_query 50 None ::
       ((fun team => cycles_query 50 None (team_id team)) <$> take 50 (team_nr <$> seq 0 51))).
Proof.
  split; [reflexivity |].
  exact (proj1 (C10_one_page_per_query (example_teams 51) (example_cycles 1) example_date
                  (seq 0 50) [] (team_nr <$> seq 0 51)
                  (fun team => cycle_nr (team_id team) <$> seq 0 1)
                  (Some {| hasNextPage := true; endCursor := Some "next" |})
                  (fun _ => Some {| hasNextPage := false; endCursor := Some "next" |})
                  eq_refl (fun team => eq_refl) (Permutation_refl _))).
Defined.

End CycleResourcesFacts.

Module UriTemplatesFacts.
Import UriTemplates.

(** C7 fails on the registrations of [registerCycleResources] (and likewise
    of [registerCommentResources]): the URI [linear://cycles/active] matches
    both the template [linear://cycles/{id}] of "cycle" and the template
    [linear://cycles/active] of "activeCycles"; as "cycle" is registered
    first, the URI resolves to "cycle" with [id] bound to "active", and the
    read callback of "activeCycles" is never reached. *)
Theorem C7_cycles_active_matches_two_templates (percent_decode : string -> string) :
  match_template percent_decode "linear://cycles/{id}" "linear://cycles/active" =
    Some [("id", percent_decode "active")] /\
  match_template percent_decode "linear://cycles/active" "linear://cycles/active" = Some [] /\
  reg_name <$> matching percent_decode createServer "linear://cycles/active" =
    ["cycle"; "activeCycles"] /\
  reg_name <$> matching percent_decode createServer "linear://comments/recent" =
    ["comment"; "recentComments"] /\
  resolve percent_decode createServer "linear://cycles/active" =
    Some ("cycle", [("id", percent_decode "active")]).
Proof.
  repeat split; vm_compute; reflexivity.
Qed.

End UriTemplatesFacts.

(** ** Further properties of the pagination utilities *)

Module PaginationMore.
Import Pagination PaginationFacts.

Section Facts.

Context {T E W : Type}.
Variable fetchPage : PageFetcher T E W.

Local Abbreviation Machine := (Machine T E W).

Lemma fetchAll_loop_chained (fuel : nat) : forall (acc : list T) (m : Machine),
  exists entries,
    requests (snd (fetchAll_loop fetchPage fuel acc m)) = requests m ++ entries /\
    chained (currentCursor (this m)) entries /\
    (hasMore (this m) = false -> entries = []).
Proof.
  induction fuel as [| fuel IH]; intros acc m; simpl;
    destruct (hasMore (this m)) eqn:Hm;
    try (exists []; rewrite app_nil_r; simpl; auto; fail).
  rewrite (nextPage_fetch fetchPage m Hm). cbv zeta.
  destruct (fetchPage _ (backend m)) as [[e | result] w].
  - eexists. split; [reflexivity |]. simpl. split; [auto | discriminate].
  - match goal with
    | |- context [fetchAll_loop _ _ ?acc' ?m1] => destruct (IH acc' m1) as (entries & Hr & Hc & He)
    end.
    simpl in Hr, Hc, He.
    eexists. split; [rewrite Hr, <- app_assoc; reflexivity |].
    split; [| discriminate]. simpl. split; [reflexivity |].
    destruct (stops (this_first (this m)) result) eqn:Hs.
    + rewrite He; [exact I |]. rewrite (advance_hasMore _ _ Hm), Hs. reflexivity.
    + unfold stops in Hs. apply orb_false_iff in Hs as [Hs _].
      rewrite (advance_cursor _ _ Hs) in Hc. exact Hc.
Qed.

(** X1: the requests of [fetchAll] follow the cursor protocol: the first
    asks for the page after the current cursor of the [Paginator], each
    further one for the page after the [endCursor] that the page before it
    reported, and none follows a rejected request; those of [fetchAllPages]
    do so from [options.after]. *)
Theorem fetchAll_follows_cursors (fuel : nat) (m : Machine)
    (options : option PaginationOptions) :
  (exists entries,
     requests (snd (fetchAll fetchPage fuel m)) = requests m ++ entries /\
     chained (currentCursor (this m)) entries) /\
  (exists entries,
     requests (snd (fetchAllPages fetchPage fuel options m)) = requests m ++ entries /\
     chained (after (default_to {| first := Some 50; after := None |} options)) entries).
Proof.
  split.
  - destruct (fetchAll_loop_chained fuel [] m) as (entries & H1 & H2 & _). eauto.
  - unfold fetchAllPages.
    set (options' := default_to {| first := Some 50; after := None |} options).
    set (n := number_or (first options') 50).
    set (l := {| allNodes := []; loc_hasNextPage := true; loc_after := after options' |}).
    set (m1 := {| this := {| this_first := n; currentCursor := after options'; hasMore := true |};
                  backend := backend m; requests := requests m |}).
    assert (H : observable (fetchAll_loop fetchPage fuel [] m1) =
                observable (fetchAllPages_loop fetchPage fuel n l m))
      by (apply (loops_agree fetchPage fuel m1 m l); reflexivity).
    unfold observable in H. injection H as _ _ H. rewrite <- H.
    destruct (fetchAll_loop_chained fuel [] m1) as (entries & H1 & H2 & _). eauto.
Qed.

(** *** After the last page *)

Lemma run_calls_exhausted (fuel : nat) (calls : list Call) (m : Machine) :
  hasMore (this m) = false ->
  Forall (fun c => c <> call_reset) calls ->
  run_calls fetchPage fuel calls m = Some m.
Proof.
  intros Hm Hc. induction Hc as [| c calls Hne _ IH]; simpl; [reflexivity |].
  destruct c.
  - rewrite (nextPage_exhausted fetchPage m Hm). exact IH.
  - exact IH.
  - congruence.
  - unfold fetchAll. destruct fuel; simpl; rewrite Hm; exact IH.
Qed.

(** X2: once [fetchAll] has returned, the [Paginator] is exhausted and stays
    so until [reset]: [hasMore] is false, any further calls of [nextPage],
    [hasNextPage] and [fetchAll] leave the receiver, the backend and the log
    of requests as they are, and a further [fetchAll] returns no items. *)
Theorem fetchAll_exhausts (fuel : nat) (m0 m : Machine) (all : list T) :
  fetchAll fetchPage fuel m0 = (Some (inr all), m) ->
  hasMore (this m) = false /\
  (forall fuel' calls,
     Forall (fun c => c <> call_reset) calls ->
     run_calls fetchPage fuel' calls m = Some m) /\
  (forall fuel', fetchAll fetchPage fuel' m = (Some (inr []), m)).
Proof.
  intros H. unfold fetchAll in H.
  pose proof (fetchAll_loop_trace fetchPage fuel [] m0) as Ht. rewrite H in Ht.
  destruct Ht as (pages & _ & _ & _ & Hm & _).
  split; [exact Hm |]. split.
  - intros fuel' calls Hc. apply run_calls_exhausted; assumption.
  - intros fuel'. unfold fetchAll. destruct fuel'; simpl; rewrite Hm; reflexivity.
Qed.

(** *** The items that are left *)

Lemma prepend_app (xs ys : list T) (r : option (E + list T)) :
  prepend (xs ++ ys) r = prepend xs (prepend ys r).
Proof. destruct r as [[e | all] |]; simpl; [| rewrite app_assoc |]; reflexivity. Qed.

Lemma fetchAll_loop_acc (fuel : nat) : forall (acc : list T) (m : Machine),
  fetchAll_loop fetchPage fuel acc m =
    (prepend acc (fst (fetchAll_loop fetchPage fuel [] m)),
     snd (fetchAll_loop fetchPage fuel [] m)).
Proof.
  induction fuel as [| fuel IH]; intros acc m; simpl;
    destruct (hasMore (this m)); simpl; try (rewrite app_nil_r; reflexivity); try reflexivity.
  destruct (nextPage fetchPage m) as [[e | result] m1]; [reflexivity |].
  rewrite (IH (acc ++ nodes result)), (IH ([] ++ nodes result)). simpl.
  rewrite prepend_app. reflexivity.
Qed.

(** X3: [fetchAll] returns the items that are left: when [nextPage] has
    returned the page [P], a [fetchAll] in its place returns the items of [P]
    followed by what [fetchAll] returns after that [nextPage] (and is rejected
    or does not return when that one is or does not), with the same requests
    to the backend. *)
Theorem fetchAll_after_nextPage (fuel : nat) (m m1 : Machine) (P : PaginatedResult T) :
  hasMore (this m) = true ->
  nextPage fetchPage m = (inr P, m1) ->
  fetchAll fetchPage (S fuel) m =
    (prepend (nodes P) (fst (fetchAll fetchPage fuel m1)),
     snd (fetchAll fetchPage fuel m1)).
Proof.
  intros Hm Hn. unfold fetchAll. simpl. rewrite Hm, Hn. apply fetchAll_loop_acc.
Qed.

(** *** After a rejection *)

Lemma fetchAll_loop_rejected (fuel : nat) : forall (acc : list T) (m m' : Machine) (e : E),
  fetchAll_loop fetchPage fuel acc m = (Some (inl e), m') ->
  hasMore (this m') = true /\
  exists entries,
    requests m' = requests m ++ entries ++
      [({| first := Some (this_first (this m')); after := currentCursor (this m') |}, inl e)].
Proof.
  induction fuel as [| fuel IH]; intros acc m m' e; simpl;
    destruct (hasMore (this m)) eqn:Hm; try discriminate.
  rewrite (nextPage_fetch fetchPage m Hm). cbv zeta.
  destruct (fetchPage _ (backend m)) as [[e' | result] w].
  - intros [= <- <-]. simpl. split; [exact Hm |]. exists []. reflexivity.
  - intros H. apply IH in H as (H1 & entries & H2). split; [exact H1 |].
    simpl in H2. exists (({| first := Some (this_first (this m)); after := currentCursor (this m) |},
                          inr result) :: entries).
    rewrite H2, <- app_assoc. reflexivity.
Qed.

(** X4: when [fetchAll] is rejected, the [Paginator] is left at the page
    whose request was rejected: [hasMore] is true, the last request in the
    log is the rejected one and asked for the page after the cursor that the
    [Paginator] still holds, and the next [nextPage] repeats this request;
    the pages fetched before the rejection are not fetched again. *)
Theorem fetchAll_rejected_resumes (fuel : nat) (m m' : Machine) (e : E) :
  fetchAll fetchPage fuel m = (Some (inl e), m') ->
  let options := {| first := Some (this_first (this m')); after := currentCursor (this m') |} in
  hasMore (this m') = true /\
  (exists entries, requests m' = requests m ++ entries ++ [(options, inl e)]) /\
  requests (snd (nextPage fetchPage m')) =
    requests m' ++ [(options, fst (fetchPage options (backend m')))].
Proof.
  intros H. cbv zeta. apply fetchAll_loop_rejected in H as (Hm & entries & Hr).
  split; [exact Hm |]. split; [eauto |].
  rewrite (nextPage_fetch fetchPage m' Hm). cbv zeta.
  destruct (fetchPage _ (backend m')) as [[e' | result] w]; reflexivity.
Qed.

(** *** Page sizes *)

Lemma number_or_nonzero (n : option Z) (d : Z) : d <> 0 -> number_or n d <> 0.
Proof.
  intros Hd. unfold number_or. destruct n as [k |]; [| exact Hd].
  destruct (k =? 0) eqn:Hk; [exact Hd | apply Z.eqb_neq, Hk].
Qed.

(** X5: every request of [fetchAllPages] asks for the same number of items,
    which is [options.first] when that is given and is not 0, and 50 when
    the options or [options.first] are missing or [options.first] is 0; so
    [fetchAllPages] never asks for 0 items. *)
Theorem fetchAllPages_page_size (fuel : nat) (options : option PaginationOptions) (m : Machine) :
  let n := number_or (first (default_to {| first := Some 50; after := None |} options)) 50 in
  n <> 0 /\
  (options = None \/ (exists o, options = Some o /\ (first o = None \/ first o = Some 0)) ->
   n = 50) /\
  (forall o k, options = Some o -> first o = Some k -> k <> 0 -> n = k) /\
  exists entries,
    requests (snd (fetchAllPages fetchPage fuel options m)) = requests m ++ entries /\
    Forall (fun e => first (fst e) = Some n) entries.
Proof.
  intros n. split; [apply number_or_nonzero; discriminate |]. split; [| split].
  - intros [-> | (o & -> & [H | H])]; subst n; simpl; try rewrite H; reflexivity.
  - intros o k -> Hk Hne. subst n. simpl. rewrite Hk. simpl.
    destruct (k =? 0) eqn:H0; [apply Z.eqb_eq in H0; contradiction | reflexivity].
  - pose proof (fetchAllPages_explained fetchPage fuel options m) as H. cbv zeta in H. fold n in H.
    destruct (fetchAllPages fetchPage fuel options m) as [[[e | all] |] m']; simpl in *;
      destruct H as (pages & (entries & H1 & _ & H2) & _); eauto.
Qed.

(** X6: a [Paginator] constructed with a page size that is not positive
    never applies the short-page guard: after a fetched page, [hasMore] is
    false iff the metadata ends the traversal, so an empty page that reports
    a next page with a cursor does not stop it. *)
Theorem nonpositive_first_no_guard (m : Machine) (P : PaginatedResult T) (w : W) :
  this_first (this m) <= 0 ->
  hasMore (this m) = true ->
  fetchPage {| first := Some (this_first (this m)); after := currentCursor (this m) |}
    (backend m) = (inr P, w) ->
  hasMore (this (snd (nextPage fetchPage m))) = negb (no_next_page P).
Proof.
  intros Hn Hm Hf. rewrite (nextPage_fetch fetchPage m Hm). cbv zeta. rewrite Hf. simpl.
  rewrite (advance_hasMore _ _ Hm). unfold stops, short_page.
  replace (Z.of_nat (length (nodes P)) <? this_first (this m)) with false
    by (symmetry; apply Z.ltb_ge; lia).
  rewrite orb_false_r. reflexivity.
Qed.

(** *** A backend that serves a collection in pages *)

Lemma fetchAll_loop_serves (all : list T) (n : nat) (cursor_at : nat -> string) :
  (0 < n)%nat ->
  serves fetchPage all n cursor_at ->
  forall (fuel k : nat) (acc : list T) (m : Machine),
    (k <= length all)%nat ->
    hasMore (this m) = true ->
    this_first (this m) = Z.of_nat n ->
    currentCursor (this m) = after_offset cursor_at k ->
    (length all - k < fuel * n)%nat ->
    fst (fetchAll_loop fetchPage fuel acc m) = Some (inr (acc ++ drop k all)).
Proof.
  intros Hn Hs. induction fuel as [| fuel IH]; intros k acc m Hk Hm Hf Hc Hfuel;
    [simpl in Hfuel; lia |].
  simpl. rewrite Hm, (nextPage_fetch fetchPage m Hm). cbv zeta. rewrite Hf, Hc.
  destruct (Hs k (backend m) Hk) as (c & w' & -> & Hnext).
  cbn [fst snd].
  set (P := {| nodes := take n (drop k all);
               pageInfo := Some {| hasNextPage := (k + n <? length all)%nat;
                                   endCursor := c |} |}).
  assert (Hlen : length (nodes P) = Nat.min n (length all - k))
    by (simpl; rewrite length_take, length_drop; reflexivity).
  destruct (Nat.ltb_spec (k + n) (length all)) as [Hlt | Hge].
  - destruct (Hnext Hlt) as [-> Hne].
    assert (Hno : no_next_page P = false).
    { apply no_next_page_false. exists (cursor_at (k + n)%nat). split; [| exact Hne].
      subst P. simpl. reflexivity. }
    assert (Hsh : short_page P (this_first (this m)) = false).
    { unfold short_page. apply Z.ltb_ge. rewrite Hf, Hlen. lia. }
    match goal with
    | |- fst (fetchAll_loop _ _ ?acc' ?m1) = _ =>
        rewrite (IH (k + n)%nat acc' m1)
    end.
    + rewrite <- app_assoc. f_equal. simpl.
      rewrite <- (take_drop n (drop k all)) at 2. rewrite drop_drop. reflexivity.
    + lia.
    + simpl. rewrite (advance_hasMore _ _ Hm). unfold stops. rewrite Hno, Hsh. reflexivity.
    + simpl. rewrite advance_first. exact Hf.
    + simpl. rewrite (advance_cursor _ _ Hno). unfold result_endCursor. simpl.
      destruct (k + n)%nat eqn:Hkn; [lia | reflexivity].
    + simpl in Hfuel. lia.
  - assert (Hno : no_next_page P = true) by reflexivity.
    assert (Hdone : hasMore (advance (this m) P) = false).
    { rewrite (advance_hasMore _ _ Hm). unfold stops. rewrite Hno. reflexivity. }
    destruct fuel; cbn [fetchAll_loop this]; rewrite Hdone; cbn [fst]; subst P; cbn [nodes];
      rewrite take_ge by (rewrite length_drop; lia); reflexivity.
Qed.

(** X13: over a backend that serves a collection in pages of [first > 0]
    items, as [serves] describes, [fetchAll] on a freshly constructed
    [Paginator] and [fetchAllPages] with no starting cursor return exactly
    the collection, every item once and in order, within any number of
    iterations that is enough for its length; this includes the empty
    collection and a collection whose length is a multiple of [first]. *)
Theorem fetchAll_returns_collection (all : list T) (n : nat) (cursor_at : nat -> string)
    (fuel : nat) (m : Machine) :
  (0 < n)%nat ->
  serves fetchPage all n cursor_at ->
  (length all < fuel * n)%nat ->
  fst (fetchAll fetchPage fuel
         {| this := new_Paginator (Some (Z.of_nat n)); backend := backend m;
            requests := requests m |}) = Some (inr all) /\
  fst (fetchAllPages fetchPage fuel (Some {| first := Some (Z.of_nat n); after := None |}) m) =
    Some (inr all).
Proof.
  intros Hn Hs Hfuel.
  assert (H : fst (fetchAll fetchPage fuel
                     {| this := new_Paginator (Some (Z.of_nat n)); backend := backend m;
                        requests := requests m |}) = Some (inr all)).
  { unfold fetchAll.
    rewrite (fetchAll_loop_serves all n cursor_at Hn Hs fuel 0%nat); try reflexivity; lia. }
  split; [exact H |].
  pose proof (loops_agree fetchPage fuel
                {| this := new_Paginator (Some (Z.of_nat n)); backend := backend m;
                   requests := requests m |} m
                {| allNodes := []; loc_hasNextPage := true; loc_after := None |}
                eq_refl eq_refl eq_refl eq_refl) as Ha.
  unfold observable in Ha. injection Ha as Ha _ _.
  unfold fetchAllPages. cbn [default_to first after number_or].
  destruct (Z.of_nat n =? 0) eqn:H0; [apply Z.eqb_eq in H0; lia |].
  cbn [this new_Paginator default_to this_first allNodes] in Ha. rewrite <- Ha. exact H.
Qed.

End Facts.

(** *** Instances *)

Lemma slice_backend_serves : serves (slice_backend (items 0 5)) (items 0 5) 2 offset_cursor.
Proof.
  intros k w Hk. exists (Some (offset_cursor (k + 2)%nat)), w. split.
  - do 6 (destruct k as [| k]; [reflexivity |]). simpl in Hk. lia.
  - intros _. split; [reflexivity | discriminate].
Qed.

Lemma fetchAll_returns_collection_witness :
  fst (fetchAll (slice_backend (items 0 5)) 3 (fresh (Some 2) tt)) = Some (inr (items 0 5)).
Proof.
  exact (proj1 (fetchAll_returns_collection (slice_backend (items 0 5)) (items 0 5) 2
                  offset_cursor 3 (fresh None tt) (le_S 1 1 (le_n 1)) slice_backend_serves
                  (le_n 6))).
Defined.

Lemma fetchAll_exhausts_witness :
  exists m,
    fetchAll scenarioB_backend 2 (fresh (Some 50) tt) = (Some (inr (items 0 62)), m) /\
    hasMore (this m) = false /\
    fetchAll scenarioB_backend 0 m = (Some (inr []), m).
Proof.
  eexists. split; [reflexivity |].
  destruct (fetchAll_exhausts scenarioB_backend 2 (fresh (Some 50) tt) _ _ eq_refl)
    as (H1 & _ & H2).
  split; [exact H1 | exact (H2 0%nat)].
Defined.

Lemma fetchAll_after_nextPage_witness :
  exists m1,
    nextPage scenarioB_backend (fresh (Some 50) tt) = (inr scenarioB_page1, m1) /\
    fetchAll scenarioB_backend 2 (fresh (Some 50) tt) =
      (prepend (items 0 50) (fst (fetchAll scenarioB_backend 1 m1)),
       snd (fetchAll scenarioB_backend 1 m1)).
Proof.
  eexists. split; [reflexivity |].
  exact (fetchAll_after_nextPage scenarioB_backend 1 (fresh (Some 50) tt) _ scenarioB_page1
           eq_refl eq_refl).
Defined.

Lemma fetchAll_rejected_resumes_witness :
  exists m',
    fetchAll flaky_backend 3 (fresh (Some 1) 0%nat) = (Some (inl "timeout"), m') /\
    hasMore (this m') = true /\
    currentCursor (this m') = Some "c" /\
    requests (snd (nextPage flaky_backend m')) =
      requests m' ++ [({| first := Some 1; after := Some "c" |},
                       inr {| nodes := []; pageInfo := None |})].
Proof.
  eexists. split; [reflexivity |].
  destruct (fetchAll_rejected_resumes flaky_backend 3 (fresh (Some 1) 0%nat) _ "timeout" eq_refl)
    as (H1 & _ & H2).
  split; [exact H1 | split; [reflexivity | exact H2]].
Defined.

(** A backend that returns an empty page and reports a next page. *)
Lemma nonpositive_first_no_guard_witness :
  hasMore (this (snd (nextPage
    (fun _ w => (inr {| nodes := @nil nat;
                        pageInfo := Some {| hasNextPage := true; endCursor := Some "c" |} |}, w))
    (fresh (E := string) (Some 0) tt)))) = true.
Proof.
  exact (nonpositive_first_no_guard
           (fun _ w => (inr {| nodes := @nil nat;
                               pageInfo := Some {| hasNextPage := true; endCursor := Some "c" |} |}, w))
           (fresh (E := string) (Some 0) tt) _ tt
           (Z.le_refl 0) eq_refl eq_refl).
Defined.

End PaginationMore.

(** ** Properties of the read callbacks of the cycle resources *)

Module CycleReadFacts.
Import Pagination CycleResources CycleResourcesFacts.

Section Facts.

Context {E Date : Type}.
Variable sdk_teams : Z -> option string -> E + PaginatedResult Team.
Variable sdk_cycles : Z -> option string -> string -> E + PaginatedResult (Cycle Date).
Variable toLocaleDateString : Date -> string.
Variable time_value : Date -> option Z.

Local Abbreviation cycle_line := (cycle_line toLocaleDateString).
Local Abbreviation cycles_list := (cycles_list sdk_teams sdk_cycles toLocaleDateString).
Local Abbreviation cycles_read := (cycles_read sdk_teams sdk_cycles toLocaleDateString).
Local Abbreviation active_cycles_read :=
  (active_cycles_read sdk_teams sdk_cycles toLocaleDateString time_value).
Local Abbreviation is_active := (is_active time_value).
Local Abbreviation getCycleStatus := (getCycleStatus time_value).
Local Abbreviation lines_in_team_order := (lines_in_team_order toLocaleDateString).

(** A callback that sends one query and then settles. *)
Lemma map_async_log {A B : Type} (f : A -> Async (E := E) B) (q : A -> Query) (xs : list A) :
  (forall x log, f x log = (fst (f x []), log ++ [q x])) ->
  forall log, map_async f xs log = ((fun x => fst (f x [])) <$> xs, log ++ (q <$> xs)).
Proof.
  intros Hf. induction xs as [| x xs IH]; intros log; simpl.
  - rewrite app_nil_r. reflexivity.
  - rewrite Hf, IH, <- app_assoc. reflexivity.
Qed.

(** The read callbacks with the filter [keep] on the cycles of a team. *)
Lemma lines_fulfilled (keep : Cycle Date -> bool) (f : Team -> Async (E := E) (list string))
    (sched : list nat) (teams : list Team) (cycles : Team -> PaginatedResult (Cycle Date)) :
  (forall team log, f team log =
     (match sdk_cycles 50 None (team_id team) with
      | inl e => inl e
      | inr page => inr (cycle_line team <$> List.filter keep (nodes page))
      end, log ++ [cycles_query 50 None (team_id team)])) ->
  (forall team, team ∈ teams -> sdk_cycles 50 None (team_id team) = inr (cycles team)) ->
  sched ≡ₚ seq 0 (length teams) ->
  forall log,
    (let '(promises, log2) := map_async f teams log in
     (await_all promises sched, log2)) =
    (Some (inr ((fun team => cycle_line team <$> List.filter keep (nodes (cycles team)))
                <$> teams)),
     log ++ ((fun team => cycles_query 50 None (team_id team)) <$> teams)).
Proof.
  intros Hf Hc Hp log.
  rewrite (map_async_log f (fun team => cycles_query 50 None (team_id team))).
  - assert (Hps : (fun team => fst (f team [])) <$> teams =
                  inr <$> ((fun team => cycle_line team <$> List.filter keep (nodes (cycles team)))
                           <$> teams)).
    { rewrite <- list_fmap_compose. apply Forall_fmap_ext, Forall_forall.
      intros team Hin. rewrite Hf, (Hc team Hin). reflexivity. }
    rewrite Hps, await_all_fulfilled by (rewrite length_fmap; exact Hp). reflexivity.
  - intros team log'. rewrite (Hf team log'), (Hf team []). reflexivity.
Qed.

Lemma filter_all {A : Type} (l : list A) : List.filter (fun _ => true) l = l.
Proof. induction l as [| x l IH]; simpl; [| rewrite IH]; reflexivity. Qed.

Lemma team_cycle_lines_eq (team : Team) (log : list Query) :
  team_cycle_lines sdk_cycles toLocaleDateString team log =
    (match sdk_cycles 50 None (team_id team) with
     | inl e => inl e
     | inr page => inr (cycle_line team <$> List.filter (fun _ => true) (nodes page))
     end, log ++ [cycles_query 50 None (team_id team)]).
Proof.
  unfold team_cycle_lines, listCycles. simpl.
  destruct (sdk_cycles 50 None (team_id team)); [| rewrite filter_all]; reflexivity.
Qed.

Lemma team_active_lines_eq (now : Z) (team : Team) (log : list Query) :
  team_active_lines sdk_cycles toLocaleDateString time_value now team log =
    (match sdk_cycles 50 None (team_id team) with
     | inl e => inl e
     | inr page => inr (cycle_line team <$> List.filter (is_active now) (nodes page))
     end, log ++ [cycles_query 50 None (team_id team)]).
Proof.
  unfold team_active_lines, listCycles. simpl.
  destruct (sdk_cycles 50 None (team_id team)); reflexivity.
Qed.

(** X7: when the team listing and the cycle listings of its teams succeed,
    the read callback of [linear://cycles] returns one content entry with the
    URI that was read, whose text has one line per cycle, joined by line
    feeds, in the order of the listing of the [list] callback: team by team
    in the order of the team listing, in page order within a team, whatever
    the order in which the queries are answered.  It sends the same queries
    as the [list] callback and prints as many lines as that lists
    resources. *)
Theorem cycles_read_in_team_order (sched : list nat) (href : string) (log : list Query)
    (teams : PaginatedResult Team) (cycles : Team -> PaginatedResult (Cycle Date)) :
  sdk_teams 50 None = inr teams ->
  (forall team, team ∈ nodes teams -> sdk_cycles 50 None (team_id team) = inr (cycles team)) ->
  sched ≡ₚ seq 0 (length (nodes teams)) ->
  let lines := lines_in_team_order (fun _ => true) (nodes teams)
                 (fun team => nodes (cycles team)) in
  cycles_read sched href log =
    (Some (inr [ {| content_uri := href; text := join newline lines |} ]),
     snd (cycles_list sched log)) /\
  length lines =
    length (in_team_order toLocaleDateString (nodes teams) (fun team => nodes (cycles team))).
Proof.
  intros Ht Hc Hp lines. split.
  - rewrite (cycles_list_log sdk_teams sdk_cycles toLocaleDateString).
    unfold CycleResources.cycles_read, listTeams. simpl. rewrite Ht.
    pose proof (lines_fulfilled (fun _ => true) _ sched (nodes teams) cycles
                  team_cycle_lines_eq Hc Hp (log ++ [teams_query 50 None])) as H.
    destruct (map_async _ (nodes teams) _) as [promises log2].
    injection H as -> ->. rewrite <- app_assoc. reflexivity.
  - subst lines. unfold CycleResources.lines_in_team_order, in_team_order.
    clear Hc Hp. induction (nodes teams) as [| team l IH]; [reflexivity |].
    rewrite !fmap_cons, !concat_cons, !length_app, IH, filter_all, !length_fmap. reflexivity.
Qed.

(** X8: when the team listing and the cycle listings of its teams succeed,
    the read callback of [linear://cycles/active] returns one content entry
    with the URI that was read; its text is "No active cycles found." when no
    cycle of these pages passes the filter [startDate <= now && endDate >=
    now], else the lines of the cycles that pass it, joined by line feeds,
    team by team in the order of the team listing and in page order within a
    team.  It sends one query for teams and one per team, with [first = 50]
    and no cursor. *)
Theorem active_cycles_read_text (sched : list nat) (now : Z) (href : string) (log : list Query)
    (teams : PaginatedResult Team) (cycles : Team -> PaginatedResult (Cycle Date)) :
  sdk_teams 50 None = inr teams ->
  (forall team, team ∈ nodes teams -> sdk_cycles 50 None (team_id team) = inr (cycles team)) ->
  sched ≡ₚ seq 0 (length (nodes teams)) ->
  let lines := lines_in_team_order (is_active now) (nodes teams)
                 (fun team => nodes (cycles team)) in
  active_cycles_read sched now href log =
    (Some (inr [ {| content_uri := href;
                    text := match lines with
                            | [] => "No active cycles found."
                            | _ :: _ => join newline lines
                            end |} ]),
     log ++ teams_query 50 None ::
       ((fun team => cycles_query 50 None (team_id team)) <$> nodes teams)) /\
  ((forall team cycle, team ∈ nodes teams -> cycle ∈ nodes (cycles team) ->
      is_active now cycle = false) ->
   lines = []).
Proof.
  intros Ht Hc Hp lines. split.
  - unfold CycleResources.active_cycles_read, listTeams. simpl. rewrite Ht.
    pose proof (lines_fulfilled (is_active now) _ sched (nodes teams) cycles
                  (team_active_lines_eq now) Hc Hp (log ++ [teams_query 50 None])) as H.
    destruct (map_async _ (nodes teams) _) as [promises log2].
    injection H as -> ->. rewrite <- app_assoc.
    unfold lines, CycleResources.lines_in_team_order.
    destruct (concat _); reflexivity.
  - intros Hnone. subst lines. unfold CycleResources.lines_in_team_order.
    clear Hc Hp. induction (nodes teams) as [| team l IH]; [reflexivity |].
    rewrite fmap_cons, concat_cons.
    rewrite IH by (intros t c Ht' Hc'; apply (Hnone t c); [right |]; assumption).
    rewrite app_nil_r.
    assert (Hf : List.filter (is_active now) (nodes (cycles team)) = []).
    { assert (Hall : forall c, c ∈ nodes (cycles team) -> is_active now c = false)
        by (intros c Hin; apply (Hnone team c); [left | exact Hin]).
      induction (nodes (cycles team)) as [| c cs IHc]; simpl; [reflexivity |].
      rewrite (Hall c) by left. apply IHc. intros c' Hin. apply Hall. right. exact Hin. }
    rewrite Hf. reflexivity.
Qed.

(** X9: a cycle passes the filter of the read callback of
    [linear://cycles/active] iff both its dates are valid and
    [startsAt <= now <= endsAt]; then [getCycleStatus] is "Active", and for a
    cycle with valid dates the converse holds.  [getCycleStatus] is
    "Upcoming" iff [startsAt] is valid and later than [now]; a cycle whose
    dates are both invalid has status "Active" and does not pass the
    filter. *)
Theorem active_filter_and_status (now : Z) (cycle : Cycle Date) :
  (is_active now cycle = true <->
   exists s e, time_value (startsAt cycle) = Some s /\ time_value (endsAt cycle) = Some e /\
               s <= now <= e) /\
  (is_active now cycle = true -> getCycleStatus now cycle = "Active") /\
  (forall s e, time_value (startsAt cycle) = Some s -> time_value (endsAt cycle) = Some e ->
     getCycleStatus now cycle = "Active" -> is_active now cycle = true) /\
  (getCycleStatus now cycle = "Upcoming" <->
   exists s, time_value (startsAt cycle) = Some s /\ now < s) /\
  (time_value (startsAt cycle) = None -> time_value (endsAt cycle) = None ->
   getCycleStatus now cycle = "Active" /\ is_active now cycle = false).
Proof.
  unfold CycleResources.is_active, CycleResources.getCycleStatus, js_le, js_ge, js_lt, js_gt.
  destruct (time_value (startsAt cycle)) as [s |], (time_value (endsAt cycle)) as [e |]; simpl.
  all: repeat match goal with
       | |- context [?a <=? ?b] => destruct (Z.leb_spec a b)
       | |- context [?a <? ?b] => destruct (Z.ltb_spec a b)
       end; simpl.
  all: repeat split; try discriminate; try reflexivity; try lia; intros;
       repeat match goal with
       | H : exists _, _ |- _ => destruct H
       | H : _ /\ _ |- _ => destruct H
       | H : Some _ = Some _ |- _ => injection H as H; subst
       end; try discriminate; try lia; eauto 6.
Qed.

End Facts.

(** *** Instances *)

Lemma answered_last_first : [2; 0; 1]%nat ≡ₚ seq 0 3.
Proof.
  change ([2; 0; 1]%nat ≡ₚ [0; 1; 2]%nat).
  apply perm_trans with [0; 2; 1]%nat; [apply perm_swap | apply perm_skip, perm_swap].
Qed.

Lemma cycles_read_in_team_order_witness :
  fst (cycles_read (example_teams 3) (example_cycles 2) example_date [2; 0; 1]%nat
         "linear://cycles" []) =
    Some (inr [ {| content_uri := "linear://cycles";
                   text := join newline
                     (lines_in_team_order example_date (fun _ => true)
                        (team_nr <$> seq 0 3)
                        (fun team => cycle_nr (team_id team) <$> seq 0 2)) |} ]).
Proof.
  exact (f_equal fst
           (proj1 (cycles_read_in_team_order (example_teams 3) (example_cycles 2) example_date
                     [2; 0; 1]%nat "linear://cycles" []
                     (example_page (team_nr <$> seq 0 3) 50)
                     (fun team => example_page (cycle_nr (team_id team) <$> seq 0 2) 50)
                     eq_refl (fun team _ => eq_refl) answered_last_first))).
Defined.

Lemma active_cycles_read_text_witness :
  fst (active_cycles_read (example_teams 3) (example_cycles 2) example_date example_time
         [2; 0; 1]%nat 5 "linear://cycles/active" []) =
    Some (inr [ {| content_uri := "linear://cycles/active";
                   text := "No active cycles found." |} ]).
Proof.
  exact (f_equal fst
           (proj1 (active_cycles_read_text (example_teams 3) (example_cycles 2) example_date
                     example_time [2; 0; 1]%nat 5 "linear://cycles/active" []
                     (example_page (team_nr <$> seq 0 3) 50)
                     (fun team => example_page (cycle_nr (team_id team) <$> seq 0 2) 50)
                     eq_refl (fun team _ => eq_refl) answered_last_first))).
Defined.

End CycleReadFacts.

(** ** Properties of the filters that the client wrapper builds *)

Module LinearClientFacts.
Import Pagination LinearClient.


Section Assigned.

Context {E Issue : Type}.
Variable rawRequest : string -> RawVariables -> E + RawResult (Issue := Issue).
Variable sdk_issues : Z -> option string -> AssigneeFilter -> E + PaginatedResult Issue.

Lemma team_clause_empty (teamId : option string) :
  team_clause teamId = "" <-> truthy_opt_string teamId = false.
Proof.
  unfold team_clause. destruct (truthy_opt_string teamId); split; try discriminate; reflexivity.
Qed.

Lemma state_clause_empty (includeArchived : bool) :
  state_clause includeArchived = "" <-> includeArchived = true.
Proof.
  unfold state_clause. destruct includeArchived; simpl; split; try discriminate; reflexivity.
Qed.

(** X11: [getIssuesAssignedToUser] first sends the raw query; when the
    answer has [data.issues], it returns its [nodes] and [pageInfo] and does
    nothing else.  When the raw request is rejected or its answer lacks
    [data] or [data.issues], the error is written to the console and the
    issues are asked of the SDK client once, with the same [first] and
    [after], and what that call yields (value or rejection) is the result: a
    rejection of [getIssuesAssignedToUser] is always the rejection of this
    second call.  Both ways filter alike: the assignee is [userId], the team
    is constrained iff [teamId] is a non-empty string (the variable of the
    query and the key of the filter are then equal), and the state type
    "canceled" is excluded iff [includeArchived] is not true. *)
Theorem getIssuesAssignedToUser_falls_back (userId : string)
    (options : option AssignedOptions) (effects : Effects (E := E)) :
  let o := default_to {| assigned_first := None; assigned_after := None;
                         includeArchived := None; teamId := None |} options in
  let first := default_to 50 (assigned_first o) in
  let after := assigned_after o in
  let archived := default_to false (includeArchived o) in
  let query := query_text (teamId o) archived in
  let variables := {| var_userId := userId; var_first := first; var_after := after;
                      var_teamId := truthy_or_undefined (teamId o) |} in
  let filter := fallback_filter userId (teamId o) archived in
  let r := getIssuesAssignedToUser rawRequest sdk_issues userId options effects in
  (forall connection,
     rawRequest query variables = inr {| data := Some {| issues := Some connection |} |} ->
     r = (inr connection,
          {| sent := sent effects ++ [raw_request query variables];
             console := console effects |})) /\
  (forall error,
     read_raw (rawRequest query variables) = inl error ->
     r = (sdk_issues first after filter,
          {| sent := sent effects ++
                     [raw_request query variables; issues_request first after filter];
             console := console effects ++ [error] |})) /\
  (forall e, fst r = inl e ->
     sdk_issues first after filter = inl e /\
     exists error, read_raw (rawRequest query variables) = inl error /\
                   console (snd r) = console effects ++ [error]) /\
  (assignee_id_eq filter = userId /\
   team_id_eq filter = var_teamId variables /\
   (team_clause (teamId o) = "" <-> team_id_eq filter = None) /\
   (state_clause archived = "" <-> state_type_neq filter = None) /\
   (state_type_neq filter = None \/ state_type_neq filter = Some "canceled")).
Proof.
  intros o first after archived query variables filter r.
  subst r. unfold getIssuesAssignedToUser.
  fold o. fold first. fold after. fold archived. fold query. fold variables. fold filter.
  split; [| split; [| split]].
  - intros [ns info] H. rewrite H. reflexivity.
  - intros error H. rewrite H. simpl. rewrite <- app_assoc. reflexivity.
  - intros e. destruct (read_raw (rawRequest query variables)) as [error | connection] eqn:H;
      simpl; [| discriminate].
    intros He. split; [exact He |]. exists error. auto.
  - subst filter variables. unfold fallback_filter, truthy_or_undefined. simpl.
    rewrite team_clause_empty, state_clause_empty.
    destruct (truthy_opt_string (teamId o)) eqn:Ht, archived; simpl;
      repeat split; try discriminate; auto;
      destruct (teamId o); try discriminate; auto.
Qed.

End Assigned.

End LinearClientFacts.

(** ** Which URIs match more than one registered template *)

Module UriTemplatesMore.
Import UriTemplates.

Lemma join_segments_cons (c : ascii) (h : string) (t : list string) :
  join_segments (String c h) t = String c (join_segments h t).
Proof. destruct t; reflexivity. Qed.

Lemma join_split_on (s : string) :
  join_segments (fst (split_on "/" s)) (snd (split_on "/" s)) = s.
Proof.
  induction s as [| c s IH]; simpl; [reflexivity |].
  destruct (split_on "/" s) as [h t]. simpl in IH.
  destruct (Ascii.eqb c "/") eqn:Hc; simpl.
  - apply Ascii.eqb_eq in Hc. subst c. rewrite IH. reflexivity.
  - rewrite join_segments_cons, IH. reflexivity.
Qed.

Lemma segments_inj (s : string) (h : string) (t : list string) :
  segments s = h :: t -> s = join_segments h t.
Proof.
  unfold segments. pose proof (join_split_on s) as H.
  destruct (split_on "/" s) as [h' t']. simpl in H. intros [= <- <-]. auto.
Qed.

Lemma common_sound (decode : string -> string) (t1 : list Segment) :
  forall (t2 : list Segment) (uri : list string) vars1 vars2,
    match_segments decode t1 uri = Some vars1 ->
    match_segments decode t2 uri = Some vars2 ->
    exists pattern, common t1 t2 = Some pattern /\ fits pattern uri.
Proof.
  induction t1 as [| [a | x] t1 IH]; intros [| [b | y] t2] [| s uri] vars1 vars2;
    simpl; try discriminate.
  - intros _ _. exists []. split; [reflexivity | exact I].
  - destruct (String.eqb a s) eqn:Ha; [| discriminate].
    destruct (String.eqb b s) eqn:Hb; [| discriminate].
    apply String.eqb_eq in Ha, Hb. subst a b. rewrite String.eqb_refl.
    intros H1 H2. destruct (IH _ _ _ _ H1 H2) as (pattern & -> & Hfit).
    eexists. split; [reflexivity |]. simpl. auto.
  - destruct (String.eqb a s) eqn:Ha; [| discriminate].
    destruct (String.eqb s "") eqn:Hs; [discriminate |].
    apply String.eqb_eq in Ha. subst a. rewrite Hs.
    destruct (match_segments decode t2 uri) as [vars |] eqn:H2; [| discriminate].
    intros H1 _. destruct (IH _ _ _ _ H1 H2) as (pattern & -> & Hfit).
    eexists. split; [reflexivity |]. simpl. auto.
  - destruct (String.eqb s "") eqn:Hs; [discriminate |].
    destruct (match_segments decode t1 uri) as [vars |] eqn:H1; [| discriminate].
    destruct (String.eqb b s) eqn:Hb; [| discriminate].
    apply String.eqb_eq in Hb. subst b. rewrite Hs.
    intros _ H2. destruct (IH _ _ _ _ H1 H2) as (pattern & -> & Hfit).
    eexists. split; [reflexivity |]. simpl. auto.
  - destruct (String.eqb s "") eqn:Hs; [discriminate |].
    destruct (match_segments decode t1 uri) as [vars |] eqn:H1; [| discriminate].
    destruct (match_segments decode t2 uri) as [vars' |] eqn:H2; [| discriminate].
    intros _ _. destruct (IH _ _ _ _ H1 H2) as (pattern & -> & Hfit).
    eexists. split; [reflexivity |]. simpl. auto.
Qed.

Lemma filter_one {A : Type} (f : A -> bool) (l : list A) :
  (1 <= length (List.filter f l))%nat ->
  exists l2 b l3, l = l2 ++ b :: l3 /\ f b = true.
Proof.
  induction l as [| y l IH]; simpl; [lia |].
  destruct (f y) eqn:Hy.
  - intros _. exists [], y, l. auto.
  - intros H. destruct (IH H) as (l2 & b & l3 & -> & Hb).
    exists (y :: l2), b, l3. auto.
Qed.

Lemma filter_two {A : Type} (f : A -> bool) (l : list A) :
  (2 <= length (List.filter f l))%nat ->
  exists l1 a l2 b l3, l = l1 ++ a :: l2 ++ b :: l3 /\ f a = true /\ f b = true.
Proof.
  induction l as [| x l IH]; simpl; [lia |].
  destruct (f x) eqn:Hx; simpl.
  - intros H. destruct (filter_one f l) as (l2 & b & l3 & -> & Hb); [lia |].
    exists [], x, l2, b, l3. auto.
  - intros H. destruct (IH H) as (l1 & a & l2 & b & l3 & -> & Ha & Hb).
    exists (x :: l1), a, l2, b, l3. auto.
Qed.

Lemma overlaps_complete (a b : Registration) pattern :
  common (template_segments (reg_template a)) (template_segments (reg_template b)) = Some pattern ->
  forall l1 l2 l3,
    (reg_name a, reg_name b, pattern) ∈ overlaps (l1 ++ a :: l2 ++ b :: l3).
Proof.
  intros Hc l1 l2 l3. induction l1 as [| x l1 IH]; simpl.
  - apply elem_of_app. left. unfold overlaps_with.
    apply list_elem_of_omap. exists b. split.
    + apply elem_of_app. right. left.
    + rewrite Hc. reflexivity.
  - apply elem_of_app. right. exact IH.
Qed.

(** X12 (relative to the matching rule modelled from the spec): among the
    resources that [createServer] registers, the only URIs that match more
    than one template are [linear://cycles/active] and
    [linear://comments/recent]; every other URI matches at most one
    registered template. *)
Theorem only_two_ambiguous_uris (percent_decode : string -> string) (uri : string) :
  (length (matching percent_decode createServer uri) <= 1)%nat \/
  uri = "linear://cycles/active" \/
  uri = "linear://comments/recent".
Proof.
  destruct (le_lt_dec (length (matching percent_decode createServer uri)) 1) as [H | H];
    [left; exact H | right].
  apply filter_two in H as (l1 & a & l2 & b & l3 & Heq & Ha & Hb).
  unfold matches, match_template in Ha, Hb.
  destruct (match_segments percent_decode (template_segments (reg_template a)) (segments uri))
    as [vars1 |] eqn:H1; [| discriminate].
  destruct (match_segments percent_decode (template_segments (reg_template b)) (segments uri))
    as [vars2 |] eqn:H2; [| discriminate].
  destruct (common_sound _ _ _ _ _ _ H1 H2) as (pattern & Hc & Hfit).
  pose proof (overlaps_complete a b pattern Hc l1 l2 l3) as Hin.
  rewrite <- Heq in Hin.
  assert (Ho : overlaps createServer =
    [("cycle", "activeCycles", [Some "linear:"; Some ""; Some "cycles"; Some "active"]);
     ("comment", "recentComments", [Some "linear:"; Some ""; Some "comments"; Some "recent"])])
    by (vm_compute; reflexivity).
  rewrite Ho in Hin.
  apply elem_of_cons in Hin as [Hin | Hin]; [| apply list_elem_of_singleton in Hin];
    injection Hin as _ _ ->;
    destruct (segments uri) as [| s1 [| s2 [| s3 [| s4 [| s5 rest]]]]] eqn:Hs;
    simpl in Hfit; try tauto;
    destruct Hfit as (-> & -> & -> & -> & _);
    apply segments_inj in Hs; subst uri; auto.
Qed.

End UriTemplatesMore.
